(** * PostAutomationBot: the post-scheduling engine

    A shallow embedding of [scheduler.py] (class [PostScheduler]), of the
    parts of [database.py] and [poster_bot.py] it talks to, and of the job
    registry of the third-party [schedule] package the code drives.

    Conventions of the model.
    - A naive [datetime] is an integer number of microseconds since
      midnight of a reference day; its fields are read with floor division.
      The year range of Python's [datetime] is not modelled.
    - Python floats are idealised as exact rationals ([Q]); a [timedelta]
      built from a float number of minutes is rounded to the nearest
      microsecond (ties to even), as CPython does.
    - The ambient random generator is an explicit tape of raw draws that is
      threaded through every call.
    - Every operation reads the clock once: the instant [now] is a
      parameter. *)

From Stdlib Require Import ZArith QArith Qround Qminmax Lqa Lia.
From Stdlib Require Import List String Ascii Bool DecimalString DecimalNat.
From Stdlib Require Import Sorting.Sorted Sorting.Permutation.
Import ListNotations.

Local Open Scope Z_scope.

(** ** Naive datetimes *)

Module Datetime.

Definition datetime := Z.

Definition us_per_second : Z := 1000000.
Definition us_per_minute : Z := 60 * us_per_second.
Definition us_per_hour : Z := 60 * us_per_minute.
Definition us_per_day : Z := 24 * us_per_hour.

Definition ordinal (t : datetime) : Z := t / us_per_day.
Definition hour (t : datetime) : Z := (t / us_per_hour) mod 24.
Definition minute (t : datetime) : Z := (t / us_per_minute) mod 60.
Definition second (t : datetime) : Z := (t / us_per_second) mod 60.
Definition microsecond (t : datetime) : Z := t mod us_per_second.

(** [datetime(day, h, m, s, us)] *)
Definition make (day h m s us : Z) : datetime :=
  day * us_per_day + h * us_per_hour + m * us_per_minute
  + s * us_per_second + us.

(** [t.replace(hour=h, minute=m)]: date, second and microsecond kept. *)
Definition replace_hour_minute (t : datetime) (h m : Z) : datetime :=
  make (ordinal t) h m (second t) (microsecond t).

(** [t.replace(hour=h, minute=m, second=s, microsecond=0)] *)
Definition replace_time (t : datetime) (h m s : Z) : datetime :=
  make (ordinal t) h m s 0.

(** Round a rational to the nearest integer, ties to the even one. *)
Definition round_half_even (x : Q) : Z :=
  let f := Qfloor x in
  match Qcompare (x - inject_Z f) (1 # 2) with
  | Lt => f
  | Gt => f + 1
  | Eq => if Z.even f then f else f + 1
  end.

(** [timedelta(minutes=x)] for a float [x], in microseconds. *)
Definition timedelta_minutes (x : Q) : Z :=
  round_half_even (x * inject_Z us_per_minute).

(** [timedelta(hours=n)] and [timedelta(days=n)] for an int [n]. *)
Definition timedelta_hours (n : Z) : Z := n * us_per_hour.
Definition timedelta_days (n : Z) : Z := n * us_per_day.

(** [(a - b).total_seconds() / 3600] *)
Definition hours_between (a b : datetime) : Q :=
  (inject_Z (a - b) / inject_Z us_per_second) / 3600.

End Datetime.
Import Datetime.

(** ** The random source (module [random])

    The generator state is a tape of raw words.  [random()] yields
    [k / 2^53] for a 53-bit [k]; [uniform(a, b)] is [a + (b-a) * random()];
    [randint(a, b)] yields [a] plus a value below [b - a + 1].  Each call
    consumes one word of the tape. *)

Module Random.

Definition rng := nat -> Z.

Definition advance (g : rng) : rng := fun n => g (S n).

Definition two53 : Z := 2 ^ 53.

Definition random (g : rng) : Q * rng :=
  (inject_Z (g O mod two53) / inject_Z two53, advance g)%Q.

Definition uniform (a b : Q) (g : rng) : Q * rng :=
  let (u, g') := random g in (a + (b - a) * u, g')%Q.

Definition randint (a b : Z) (g : rng) : Z * rng :=
  (a + g O mod (b - a + 1), advance g).

(** A tape that replays a finite list of words and then zeros. *)
Definition tape (ws : list Z) : rng := fun n => nth n ws 0.

End Random.

(** ** Python's [sorted]: a stable insertion sort on a key *)

Section Sorted.
Context {A : Type} (key : A -> Z).

Fixpoint insert_by (x : A) (l : list A) : list A :=
  match l with
  | [] => [x]
  | y :: l' => if key x <=? key y then x :: l else y :: insert_by x l'
  end.

Fixpoint sorted_by (l : list A) : list A :=
  match l with
  | [] => []
  | x :: l' => insert_by x (sorted_by l')
  end.
End Sorted.

(** [sorted(post_times)] *)
Definition sorted (l : list datetime) : list datetime :=
  sorted_by (fun t => t) l.

(** ** [PostScheduler]: constants and the slot planner *)

Definition RANDOM_POSTS_PER_DAY : Z := 5.
Definition MIN_INTERVAL_MINUTES : Q := 30.
Definition MAX_INTERVAL_MINUTES : Q := 240.

(** [min_interval] and [max_interval] of [distribute_posts_intelligently]. *)
Definition min_interval (num_posts : Z) (hours_remaining : Q) : Q :=
  let minutes_remaining := (hours_remaining * 60)%Q in
  Qmax MIN_INTERVAL_MINUTES (minutes_remaining / inject_Z (num_posts + 1)).

Definition max_interval (num_posts : Z) (hours_remaining : Q) : Q :=
  let minutes_remaining := (hours_remaining * 60)%Q in
  let max_interval :=
    Qmin MAX_INTERVAL_MINUTES (minutes_remaining / inject_Z num_posts) in
  Qmax max_interval (min_interval num_posts hours_remaining).

(** One iteration of the planning loop, split as the source is written:
    the interval drawn for post [i], the computed [post_time], and the
    guard that rewrites a time whose clock hour is 23. *)
Definition draw_interval (lo hi : Q) (i : nat) (g : Random.rng)
  : Q * Random.rng :=
  match i with
  | O => Random.uniform lo (lo * 2) g
  | S _ => Random.uniform lo hi g
  end.

Definition midnight_guard (post_time : datetime) (g : Random.rng)
  : datetime * Random.rng :=
  if 23 <=? hour post_time then
    let (m, g') := Random.randint 0 59 g in
    (replace_hour_minute post_time 22 m, g')
  else (post_time, g).

(** The record of one iteration: what was drawn, what was computed and
    what was appended to [post_times]. *)
Record slot_step := {
  step_start : datetime;       (* [current_time] on entry *)
  step_interval : Q;           (* [interval] *)
  step_computed : datetime;    (* [post_time] before the guard *)
  step_slot : datetime         (* [post_time] appended *)
}.

(** [for i in range(...)]: [k] iterations left, [i] the loop index. *)
Fixpoint plan_trace (k : nat) (i : nat) (lo hi : Q)
    (current_time : datetime) (g : Random.rng)
  : list slot_step * Random.rng :=
  match k with
  | O => ([], g)
  | S k' =>
      let (interval, g1) := draw_interval lo hi i g in
      let post_time := current_time + timedelta_minutes interval in
      let (post_time', g2) := midnight_guard post_time g1 in
      let (rest, g3) := plan_trace k' (S i) lo hi post_time' g2 in
      ({| step_start := current_time; step_interval := interval;
          step_computed := post_time; step_slot := post_time' |} :: rest,
       g3)
  end.

(** The trace of the loop for a call that passes the entry guard. *)
Definition plan_steps (num_posts : Z) (hours_remaining : Q)
    (now : datetime) (g : Random.rng) : list slot_step * Random.rng :=
  plan_trace (Z.to_nat num_posts) O
    (min_interval num_posts hours_remaining)
    (max_interval num_posts hours_remaining) now g.

(** [distribute_posts_intelligently(num_posts, hours_remaining)] *)
Definition distribute_posts_intelligently (num_posts : Z)
    (hours_remaining : Q) (now : datetime) (g : Random.rng)
  : list datetime * Random.rng :=
  if (num_posts <=? 0) || Qle_bool hours_remaining 0 then ([], g)
  else
    let (steps, g') := plan_steps num_posts hours_remaining now g in
    (sorted (map step_slot steps), g').

(** ** Text rendering used for clock times and tags *)

Definition decimal (n : nat) : string :=
  NilZero.string_of_uint (Nat.to_uint n).

(** ["%02d"] *)
Definition two_digits (n : Z) : string :=
  if n <? 10 then ("0" ++ decimal (Z.to_nat n))%string
  else decimal (Z.to_nat n).

Definition lower_ascii (c : ascii) : ascii :=
  let n := nat_of_ascii c in
  if ((65 <=? n) && (n <=? 90))%nat then ascii_of_nat (n + 32) else c.

(** [s.lower()] on ASCII text *)
Fixpoint lower (s : string) : string :=
  match s with
  | EmptyString => EmptyString
  | String c s' => String (lower_ascii c) (lower s')
  end.

(** [needle in hay] *)
Fixpoint contains (needle hay : string) : bool :=
  String.prefix needle hay
  || match hay with
     | EmptyString => false
     | String _ hay' => contains needle hay'
     end.

(** ** The job registry of the [schedule] package

    Only what the scheduler drives is modelled: daily jobs created by
    [every().day.at("HH:MM").do(f, ...).tag(t)], the registry
    [schedule.jobs], [schedule.clear] and [schedule.run_pending].  A daily
    job is armed for its clock time today when that is still ahead of the
    clock and for the same clock time tomorrow otherwise; running a job
    re-arms it, and a job leaves the registry only through [clear]. *)

Module Schedule.

(** The clock time that [at("HH:MM")] parses; seconds are zero. *)
Record time := { time_hour : Z; time_minute : Z }.

(** [str(job.at_time)], "HH:MM:SS" *)
Definition show_time (c : time) : string :=
  (two_digits (time_hour c) ++ ":" ++ two_digits (time_minute c)
   ++ ":00")%string.

(** The callables the scheduler registers, with their keyword
    arguments. *)
Inductive job_func :=
| callback_function (post_type : string)
| send_notification (title message : string).

Record Job := {
  at_time : time;
  func : job_func;
  tags : list string;
  last_run : option datetime;
  next_run : datetime
}.

(** [Job._schedule_next_run] for a daily job *)
Definition schedule_next_run (now : datetime) (c : time) : datetime :=
  let today := replace_time now (time_hour c) (time_minute c) 0 in
  if now <? today then today else today + timedelta_days 1.

(** The job object built by [every().day.at(c).do(f).tag(tag)]. *)
Definition new_job (now : datetime) (c : time) (f : job_func)
    (tag : string) : Job :=
  {| at_time := c; func := f; tags := [tag]; last_run := None;
     next_run := schedule_next_run now c |}.

(** [schedule.every().day.at(c).do(f).tag(tag)]: the job is appended to
    the registry. *)
Definition every_day_at_do_tag (now : datetime) (c : time)
    (f : job_func) (tag : string) (jobs : list Job) : list Job :=
  jobs ++ [new_job now c f tag].

(** [tag in job.tags] *)
Definition has_tag (tag : string) (j : Job) : bool :=
  existsb (String.eqb tag) (tags j).

(** [schedule.clear(tag)] *)
Definition clear (tag : option string) (jobs : list Job) : list Job :=
  match tag with
  | None => []
  | Some t => filter (fun j => negb (has_tag t j)) jobs
  end.

(** [job.should_run] *)
Definition should_run (now : datetime) (j : Job) : bool :=
  next_run j <=? now.

(** The bookkeeping of [job.run()] after the callable returned. *)
Definition ran (now : datetime) (j : Job) : Job :=
  {| at_time := at_time j; func := func j; tags := tags j;
     last_run := Some now;
     next_run := schedule_next_run now (at_time j) |}.

End Schedule.
Import Schedule.

(** [t.strftime("%H:%M")], kept as the clock time [at] parses from it. *)
Definition strftime_HM (t : datetime) : time :=
  {| time_hour := hour t; time_minute := minute t |}.

(** The text of [t.strftime("%H:%M")]. *)
Definition show_HM (c : time) : string :=
  (two_digits (time_hour c) ++ ":" ++ two_digits (time_minute c))%string.

(** ** The persistence collaborator ([database.py])

    A row of table [posts] keeps the columns the counting queries read.
    [db_raises] stands for a connection on which every statement raises
    [mysql.connector.Error].

    [create_tables] declares [post_type ENUM('SCHEDULED', 'RANDOM', 'TEST')],
    [status ENUM('SUCCESS', 'FAILURE')] and [timestamp DATETIME], a column
    without fractional seconds.  The server is taken with its defaults: in
    strict mode an [INSERT] of a value that is no member of an ENUM column
    is refused with an [Error], and a time with a fractional part is
    rounded to the nearest second, half a second rounding up.  Members are
    matched as the counting queries below match types: letter for letter,
    which is how every caller of [log_post] spells them. *)

Record post_row := {
  row_post_type : string;
  row_timestamp : datetime;
  row_status : string
}.

Record database := {
  db_raises : bool;
  db_posts : list post_row
}.

(** [DATE(timestamp) = CURDATE()] *)
Definition posted_today (now : datetime) (r : post_row) : bool :=
  ordinal (row_timestamp r) =? ordinal now.

(** [DatabaseManager.get_today_posts_count(post_type=None)] *)
Definition get_today_posts_count (d : database) (now : datetime)
    (post_type : option string) : Z :=
  if db_raises d then 0
  else
    let today := filter (posted_today now) (db_posts d) in
    match post_type with
    | Some ty =>
        if String.eqb ty "" then Z.of_nat (List.length today)
        else Z.of_nat (List.length
               (filter (fun r => String.eqb (row_post_type r) ty) today))
    | None => Z.of_nat (List.length today)
    end.

(** The members of the two ENUM columns. *)
Definition post_type_enum : list string :=
  ["SCHEDULED"; "RANDOM"; "TEST"]%string.

Definition status_enum : list string := ["SUCCESS"; "FAILURE"]%string.

Definition enum_member (members : list string) (value : string) : bool :=
  existsb (String.eqb value) members.

(** What a [DATETIME] column keeps of a time: the nearest whole second. *)
Definition DATETIME (t : datetime) : datetime :=
  (t + us_per_second / 2) / us_per_second * us_per_second.

(** [DatabaseManager.log_post(post_type, status, ...)]: the row is stamped
    with [datetime.now()]; an [Error] of the [INSERT] is caught and logged,
    and no row is stored. *)
Definition log_post (d : database) (now : datetime)
    (post_type status : string) : database :=
  if db_raises d then d
  else if enum_member post_type_enum post_type
          && enum_member status_enum status
  then {| db_raises := false;
          db_posts := db_posts d ++
            [ {| row_post_type := post_type; row_timestamp := DATETIME now;
                 row_status := status |} ] |}
  else d.

(** ** The state the engine works on

    [jobs] is the registry [schedule.jobs]; [publish] gives the outcome of
    each successive publishing attempt of [make_post]; [notified] logs the
    desktop notifications sent. *)

Record world := {
  jobs : list Job;
  database_manager : database;
  rand : Random.rng;
  publish : nat -> bool;
  notified : list (string * string)
}.

Definition set_jobs (js : list Job) (w : world) : world :=
  {| jobs := js; database_manager := database_manager w; rand := rand w;
     publish := publish w; notified := notified w |}.

Definition set_database (d : database) (w : world) : world :=
  {| jobs := jobs w; database_manager := d; rand := rand w;
     publish := publish w; notified := notified w |}.

Definition set_rand (g : Random.rng) (w : world) : world :=
  {| jobs := jobs w; database_manager := database_manager w; rand := g;
     publish := publish w; notified := notified w |}.

Definition set_publish (p : nat -> bool) (w : world) : world :=
  {| jobs := jobs w; database_manager := database_manager w; rand := rand w;
     publish := p; notified := notified w |}.

(** [notifier.send_notification(title, message)] *)
Definition notify (title message : string) (w : world) : world :=
  {| jobs := jobs w; database_manager := database_manager w; rand := rand w;
     publish := publish w; notified := notified w ++ [(title, message)] |}.

(** ** [PostScheduler]: quota, window and the registry operations *)

Definition SCHEDULED_POST_TIME : time :=
  {| time_hour := 12; time_minute := 0 |}.

(** [calculate_remaining_posts] *)
Definition calculate_remaining_posts (w : world) (now : datetime) : Z :=
  let total_posts_today :=
    get_today_posts_count (database_manager w) now None in
  let random_posts_today :=
    get_today_posts_count (database_manager w) now (Some "RANDOM"%string) in
  Z.max 0 (RANDOM_POSTS_PER_DAY - random_posts_today).

(** [calculate_time_remaining_today] *)
Definition calculate_time_remaining_today (now : datetime) : Q :=
  let midnight := make (ordinal now) 23 59 59 999999 in
  hours_between midnight now.

(** The tags of the jobs installed for planned post [i]. *)
Definition random_post_tag (i : nat) : string :=
  ("random_post_" ++ decimal i)%string.

Definition notify_random_post_tag (i : nat) : string :=
  ("notify_random_post_" ++ decimal i)%string.

(** The body of [for i, post_time in enumerate(post_times)] in
    [schedule_remaining_posts]. *)
Definition install_random_post (now : datetime) (i : nat)
    (post_time : datetime) (js : list Job) : list Job :=
  let js1 :=
    every_day_at_do_tag now (strftime_HM post_time)
      (callback_function "RANDOM") (random_post_tag i) js in
  let notify_time := strftime_HM (post_time - timedelta_hours 1) in
  every_day_at_do_tag now notify_time
    (send_notification "Upcoming Post"
       ("A RANDOM post is scheduled at " ++ show_HM (strftime_HM post_time)))
    (notify_random_post_tag i) js1.

Fixpoint install_random_posts (now : datetime) (i : nat)
    (post_times : list datetime) (js : list Job) : list Job :=
  match post_times with
  | [] => js
  | post_time :: rest =>
      install_random_posts now (S i) rest
        (install_random_post now i post_time js)
  end.

(** [schedule_remaining_posts(callback_function)] *)
Definition schedule_remaining_posts (now : datetime) (w : world) : world :=
  let remaining_posts := calculate_remaining_posts w now in
  if remaining_posts =? 0 then w
  else
    let hours_remaining := calculate_time_remaining_today now in
    if Qle_bool hours_remaining 0 then w
    else
      let (post_times, g') :=
        distribute_posts_intelligently remaining_posts hours_remaining
          now (rand w) in
      set_jobs (install_random_posts now 0 post_times (jobs w))
        (set_rand g' w).

(** [schedule_daily_post(callback_function)] *)
Definition schedule_daily_post (now : datetime) (w : world) : world :=
  let js1 :=
    every_day_at_do_tag now SCHEDULED_POST_TIME
      (callback_function "SCHEDULED") "daily_post" (jobs w) in
  let notify_time :=
    strftime_HM
      (make 0 (time_hour SCHEDULED_POST_TIME)
         (time_minute SCHEDULED_POST_TIME) 0 0 - timedelta_hours 1) in
  set_jobs
    (every_day_at_do_tag now notify_time
       (send_notification "Upcoming Post"
          ("A SCHEDULED post is at " ++ show_HM SCHEDULED_POST_TIME))
       "notify_daily_post" js1)
    w.

(** [clear_all_schedules] and [clear_random_posts] *)
Definition clear_all_schedules (w : world) : world :=
  set_jobs (clear None (jobs w)) w.

Definition clear_random_posts (w : world) : world :=
  set_jobs (clear (Some "random_post"%string) (jobs w)) w.

(** [repr(job.tags)] for the tag sets the scheduler builds. *)
Definition show_tags (ts : list string) : string :=
  ("{" ++ String.concat ", " (map (fun t => "'" ++ t ++ "'") ts) ++ "}")%string.

(** [f"{job.at_time} - {job.tags}"], the first component of an entry of
    [get_scheduled_jobs]. *)
Definition job_info (j : Job) : string :=
  (show_time (at_time j) ++ " - " ++ show_tags (tags j))%string.

Definition get_scheduled_jobs (w : world) : list string :=
  map job_info (jobs w).

(** [initialize_daily_schedule(callback_function)] *)
Definition initialize_daily_schedule (now : datetime) (w : world) : world :=
  schedule_remaining_posts now
    (schedule_daily_post now (clear_all_schedules w)).

(** ** [AutomatedPosterBot]: publishing and the dispatch callback *)

(** [make_post(post_type)]: the outcome of fetching and publishing is read
    from [publish]; either way the attempt is logged. *)
Definition make_post (post_type : string) (now : datetime) (w : world)
  : bool * world :=
  let success := publish w O in
  let status := if success then "SUCCESS"%string else "FAILURE"%string in
  (success,
   set_publish (fun n => publish w (S n))
     (set_database (log_post (database_manager w) now post_type status) w)).

Definition newline : string := String (ascii_of_nat 10) EmptyString.

(** [post_callback(post_type)].  The next job announced is the first one
    whose [job_info] does not contain the lower-cased post type; the text
    before [" - "] of a [job_info] is its clock time. *)
Definition post_callback (post_type : string) (now : datetime) (w : world)
  : world :=
  let (success, w1) := make_post post_type now w in
  let result_msg :=
    if success then (post_type ++ " post was successful.")%string
    else (post_type ++ " post failed.")%string in
  let next_job :=
    find (fun j => negb (contains (lower post_type) (lower (job_info j))))
      (jobs w1) in
  let next_msg :=
    match next_job with
    | Some j => ("Next post scheduled: " ++ show_time (at_time j))%string
    | None => "No more posts scheduled today."%string
    end in
  let w2 := notify "Post Result" (result_msg ++ newline ++ next_msg) w1 in
  if success && String.eqb post_type "RANDOM"
  then schedule_remaining_posts now w2
  else w2.

(** ** [schedule.run_pending] *)

(** Calling a job's callable. *)
Definition call (f : job_func) (now : datetime) (w : world) : world :=
  match f with
  | callback_function post_type => post_callback post_type now w
  | send_notification title message => notify title message w
  end.

Fixpoint set_nth {A : Type} (i : nat) (x : A) (l : list A) : list A :=
  match l, i with
  | [], _ => []
  | _ :: l', O => x :: l'
  | y :: l', S i' => y :: set_nth i' x l'
  end.

(** [job.run()] for the job object at position [i] of the registry: the
    callable runs, then the job itself is stamped and re-armed. *)
Definition run_job (now : datetime) (i : nat) (w : world) : world :=
  match nth_error (jobs w) i with
  | None => w
  | Some j =>
      let w1 := call (func j) now w in
      set_jobs (set_nth i (ran now j) (jobs w1)) w1
  end.

(** The positions of the jobs that are due, ordered as
    [sorted(runnable_jobs)] orders the jobs (by [next_run]). *)
Definition runnable_jobs (now : datetime) (js : list Job) : list nat :=
  map fst
    (sorted_by (fun p : nat * Job => next_run (snd p))
       (filter (fun p => should_run now (snd p))
          (combine (seq 0 (List.length js)) js))).

Definition run_pending (now : datetime) (w : world) : world :=
  fold_left (fun w i => run_job now i w) (runnable_jobs now (jobs w)) w.

(** ** Vocabulary of the properties *)

(** Linear arithmetic with the clock constants spelled out. *)
Ltac clock_lia :=
  unfold timedelta_hours, timedelta_days, us_per_day, us_per_hour,
    us_per_minute, us_per_second in *; lia.

(** A value is drawn from [[a, b]] when it is [a + (b - a) * u] for a
    generator output [u] in [[0, 1)]. *)
Definition drawn_from (a b x : Q) : Prop :=
  exists u : Q, (0 <= u)%Q /\ (u < 1)%Q /\ x = (a + (b - a) * u)%Q.

(** What one iteration guarantees, read off the loop body: a slot is the
    computed time unless its clock hour is 23, in which case it is that
    time moved to hour 22 and a drawn minute of the same day. *)
Definition guarded (computed slot : datetime) : Prop :=
  (hour computed < 23 /\ slot = computed)
  \/ (23 <= hour computed /\
      exists m, 0 <= m <= 59 /\ slot = replace_hour_minute computed 22 m).

(** The interval bounds used at loop index [i]. *)
Definition upper_bound (lo hi : Q) (i : nat) : Q :=
  match i with O => (lo * 2)%Q | S _ => hi end.

(** The steps of a trace are chained: each starts where the previous one
    ended, adds a drawn interval and passes the guard. *)
Fixpoint chained (lo hi : Q) (current_time : datetime) (i : nat)
    (steps : list slot_step) : Prop :=
  match steps with
  | [] => True
  | s :: rest =>
      step_start s = current_time
      /\ drawn_from lo (upper_bound lo hi i) (step_interval s)
      /\ step_computed s = step_start s + timedelta_minutes (step_interval s)
      /\ guarded (step_computed s) (step_slot s)
      /\ chained lo hi (step_slot s) (S i) rest
  end.




(** The clock times the scheduler hands to [at]: what [strftime] prints. *)
Definition valid_time (c : time) : Prop :=
  0 <= time_hour c < 24 /\ 0 <= time_minute c < 60.

(** The jobs installed for planned post [i] at [post_time], and for a
    whole plan. *)
Definition slot_jobs (now : datetime) (i : nat) (post_time : datetime)
  : list Job :=
  [ new_job now (strftime_HM post_time) (callback_function "RANDOM")
      (random_post_tag i);
    new_job now (strftime_HM (post_time - timedelta_hours 1))
      (send_notification "Upcoming Post"
         ("A RANDOM post is scheduled at "
          ++ show_HM (strftime_HM post_time)))
      (notify_random_post_tag i) ].

Fixpoint planned_jobs (now : datetime) (i : nat) (post_times : list datetime)
  : list Job :=
  match post_times with
  | [] => []
  | t :: rest => slot_jobs now i t ++ planned_jobs now (S i) rest
  end.

(** Jobs that publish a post. *)
Definition is_post (j : Job) : bool :=
  match func j with
  | callback_function _ => true
  | send_notification _ _ => false
  end.

(** Claim C5, second half, as the specification states it: a planned slot
    less than the notice lead away gets no notice job. *)
Definition notice_omitted_when_past (now : datetime)
    (post_times : list datetime) (installed : list Job) : Prop :=
  forall k t, nth_error post_times k = Some t ->
    t - timedelta_hours 1 <= now ->
    forall j, In j installed -> ~ In (notify_random_post_tag k) (tags j).

(** Claim C8 as the specification states it: cancelling a tag removes the
    jobs one of whose tags has it as a prefix, and only those. *)
Definition cancels_by_prefix (tag : string) (before after : list Job)
  : Prop :=
  after
  = filter (fun j => negb (existsb (String.prefix tag) (tags j))) before.

(** A world with an empty registry and an empty [posts] table, on which
    every publishing attempt succeeds; [raises] makes every database
    statement fail. *)
Definition idle_world (raises : bool) : world :=
  {| jobs := [];
     database_manager := {| db_raises := raises; db_posts := [] |};
     rand := Random.tape [];
     publish := fun _ => true;
     notified := [] |}.

(** Claim C3 as the specification states it: the planning step installs
    nothing. *)
Definition no_op_plan (now : datetime) (w : world) : Prop :=
  jobs (schedule_remaining_posts now w) = jobs w.

(** Claim C6, first half, as the specification states it: a Fixed job in
    the registry is armed for today. *)
Definition fixed_job_only_today (now : datetime) (w : world) : Prop :=
  forall j, In j (jobs (schedule_daily_post now w)) ->
    In "daily_post"%string (tags j) -> ordinal (next_run j) = ordinal now.

(** Jobs that publish a RANDOM post. *)
Definition is_random_post (j : Job) : bool :=
  match func j with
  | callback_function post_type => String.eqb post_type "RANDOM"
  | send_notification _ _ => false
  end.

(** ** More of [database.py] *)

(** The first row of [ORDER BY timestamp DESC LIMIT 1]: the latest of the
    timestamps, none for an empty result set. *)
Fixpoint latest (ts : list datetime) : option datetime :=
  match ts with
  | [] => None
  | t :: rest =>
      match latest rest with
      | None => Some t
      | Some m => Some (Z.max t m)
      end
  end.

(** [DatabaseManager.get_last_post_time()] *)
Definition get_last_post_time (d : database) (now : datetime)
  : option datetime :=
  if db_raises d then None
  else latest (map row_timestamp (filter (posted_today now) (db_posts d))).

(** A job is settled at [now] when it is armed for a later instant, on a
    clock time [strftime] can print. *)
Definition settled (now : datetime) (j : Job) : Prop :=
  now < next_run j /\ valid_time (at_time j).

(** ** [AutomatedPosterBot._generate_smart_hashtags]

    Text is taken to be ASCII: [lower] and [String.length] then agree with
    Python's [str.lower] and [len]. *)

(** The word list chosen by [api_name]. *)
Definition hashtag_words (api_name : string) : list string :=
  if String.eqb api_name "Quotes API" then
    ["inspiration"; "motivation"; "success"; "life"; "dreams"; "goals";
     "wisdom"; "quote"]%string
  else if String.eqb api_name "Joke API" then
    ["funny"; "humor"; "joke"; "laugh"; "comedy"; "wit"]%string
  else if String.eqb api_name "Advice API" then
    ["advice"; "tips"; "help"; "guidance"; "wisdom"; "life"]%string
  else if String.eqb api_name "Useless Facts API" then
    ["fact"; "interesting"; "knowledge"; "learn"; "science";
     "amazing"]%string
  else if String.eqb api_name "Dog Facts API" then
    ["dog"; "pet"; "animal"; "puppy"; "canine"]%string
  else if String.eqb api_name "Random Word API" then
    ["word"; "vocabulary"; "language"; "learning"]%string
  else if String.eqb api_name "Bored API" then
    ["activity"; "fun"; "entertainment"; "hobby"; "leisure"]%string
  else
    ["life"; "love"; "success"; "happiness"; "motivation";
     "inspiration"]%string.

(** The tags used when no word of the list occurs in the content. *)
Definition length_hashtags (content : string) : list string :=
  if (String.length content <? 100)%nat then ["short"; "quick"]%string
  else if (200 <? String.length content)%nat then
    ["long"; "detailed"]%string
  else ["content"%string].

(** [_generate_smart_hashtags(content, api_name)] *)
Definition generate_smart_hashtags (content api_name : string)
  : list string :=
  let hashtags :=
    filter (fun word => contains (lower word) (lower content))
      (hashtag_words api_name) in
  let hashtags :=
    match hashtags with
    | [] => length_hashtags content
    | _ :: _ => hashtags
    end in
  firstn 3 hashtags.

(** ** [content_fetcher.py]: reading a fetched JSON document *)

(** What [response.json()] answers. *)
#[warnings="-register-all"]
Inductive json :=
| JNull
| JBool (b : bool)
| JInt (n : Z)
| JFloat (q : Q)
| JString (s : string)
| JList (items : list json)
| JDict (entries : list (string * json)).

(** [key in d] and [d[key]] on a dict kept as its list of items. *)
Fixpoint dict_get {V : Type} (key : string) (d : list (string * V))
  : option V :=
  match d with
  | [] => None
  | (k, v) :: rest => if String.eqb k key then Some v else dict_get key rest
  end.

(** [s.split('.')] *)
Fixpoint split_dots (s : string) : list string :=
  match s with
  | EmptyString => [EmptyString]
  | String c s' =>
      if Ascii.eqb c "." then EmptyString :: split_dots s'
      else
        match split_dots s' with
        | [] => [String c EmptyString]
        | head :: tail => String c head :: tail
        end
  end.

(** One entry of [Config.CONTENT_APIS].  An optional key is [None] when
    the entry has no such key (or maps it to [None]). *)
Record api_config := {
  name : string;
  url : string;
  content_key : string;
  author_key : option string;
  punchline_key : option string;
  title_key : option string
}.

(** What [fetch_content] returns. *)
Record fetched := {
  content : string;
  title : option string;
  api_name : string;
  api_url : string
}.

(** Truth value of an [Optional[str]]. *)
Definition nonempty (s : option string) : bool :=
  match s with
  | Some (String _ _) => true
  | _ => false
  end.

Section Fetcher.

(** The text [str] gives for a float, a list or a dict. *)
Variable render : json -> string.

(** [str(current)] *)
Definition py_str (v : json) : string :=
  match v with
  | JString s => s
  | JBool true => "True"
  | JBool false => "False"
  | JInt n => NilZero.string_of_int (Z.to_int n)
  | _ => render v
  end.

(** The loop of [get_nested_value]: [None] stands for the early
    [return None]. *)
Fixpoint descend (keys : list string) (current : json) : option json :=
  match keys with
  | [] => Some current
  | key :: rest =>
      match current with
      | JDict d =>
          match dict_get key d with
          | Some v => descend rest v
          | None => None
          end
      | _ => None
      end
  end.

(** [ContentFetcher.get_nested_value(data, key_path)] *)
Definition get_nested_value (data : json) (key_path : string)
  : option string :=
  match descend (split_dots key_path) data with
  | None => None
  | Some JNull => None
  | Some current => Some (py_str current)
  end.

(** The body of the loop of [fetch_content] once [response.json()] has
    answered [data]: [None] stands for [continue]. *)
Definition extract_post (api : api_config) (data : json) : option fetched :=
  let content := get_nested_value data (content_key api) in
  match content with
  | Some (String c0 cs) =>
      let post_content := String c0 cs in
      let post_content :=
        match author_key api with
        | Some k =>
            let author := get_nested_value data k in
            match author with
            | Some (String a0 as_) =>
                (post_content ++ " - " ++ String a0 as_)%string
            | _ => post_content
            end
        | None => post_content
        end in
      let post_content :=
        match punchline_key api with
        | Some k =>
            let punchline := get_nested_value data k in
            match punchline with
            | Some (String p0 ps) =>
                (post_content ++ newline ++ String p0 ps)%string
            | _ => post_content
            end
        | None => post_content
        end in
      let title :=
        match title_key api with
        | Some (String t0 ts) => get_nested_value data (String t0 ts)
        | _ => None
        end in
      Some {| content := post_content; title := title;
              api_name := name api; api_url := url api |}
  | _ => None
  end.

End Fetcher.

(** ** [config.py] and the form submitted by [api_client.py] *)

(** The settings of class [Config] that the validation and the form
    read. *)
Record Config := {
  DB_HOST : string;
  DB_PORT : Z;
  DB_NAME : string;
  DB_USER : string;
  DB_PASSWORD : string;
  API_ENDPOINT : string;
  API_KEY : string;
  USER_ID : Z;
  CATEGORY_ID : Z;
  STATE : string;
  CITY : string;
  DEVICE : string;
  COUNTRIES_ISO : list string
}.

(** Truth value of a [str] and of an [int]. *)
Definition truthy_str (s : string) : bool := negb (String.eqb s "").
Definition truthy_int (n : Z) : bool := negb (n =? 0).

(** [required_fields], each with the truth value of [getattr(cls, field)]. *)
Definition required_fields (c : Config) : list (string * bool) :=
  [ ("API_ENDPOINT"%string, truthy_str (API_ENDPOINT c));
    ("API_KEY"%string, truthy_str (API_KEY c));
    ("USER_ID"%string, truthy_int (USER_ID c));
    ("CATEGORY_ID"%string, truthy_int (CATEGORY_ID c));
    ("DB_HOST"%string, truthy_str (DB_HOST c));
    ("DB_NAME"%string, truthy_str (DB_NAME c));
    ("DB_USER"%string, truthy_str (DB_USER c));
    ("DB_PASSWORD"%string, truthy_str (DB_PASSWORD c)) ].

Definition missing_fields (c : Config) : list string :=
  map fst (filter (fun field => negb (snd field)) (required_fields c)).

(** [Config.validate_config()]: [inl message] stands for
    [raise ValueError(message)]. *)
Definition validate_config (c : Config) : string + bool :=
  match missing_fields c with
  | [] => inr true
  | _ :: _ =>
      inl ("Missing required configuration: "
           ++ String.concat ", " (missing_fields c))%string
  end.

(** [d[key] = v] on a dict kept as its list of items: the value of a key
    already present is replaced in place, a new key goes last. *)
Fixpoint dict_set {V : Type} (key : string) (v : V) (d : list (string * V))
  : list (string * V) :=
  match d with
  | [] => [(key, v)]
  | (k, v0) :: rest =>
      if String.eqb k key then (k, v) :: rest
      else (k, v0) :: dict_set key v rest
  end.

(** [for v in values: d[key] = v] *)
Definition set_each {V : Type} (key : string) (values : list V)
    (d : list (string * V)) : list (string * V) :=
  fold_left (fun d v => dict_set key v d) values d.

(** [str(n)] for an [int] *)
Definition str_int (n : Z) : string := NilZero.string_of_int (Z.to_int n).

(** The [form_data] that [APIClient.post_content] submits. *)
Definition form_data (cfg : Config) (content : string)
    (title : option string) (hashtags media_urls : option (list string))
  : list (string * string) :=
  let form_data :=
    [ ("title"%string,
       match title with Some (String c s) => String c s | _ => ""%string end);
      ("category_id"%string, str_int (CATEGORY_ID cfg));
      ("state"%string, STATE cfg);
      ("device"%string, DEVICE cfg);
      ("city"%string, CITY cfg);
      ("user_id"%string, str_int (USER_ID cfg));
      ("content"%string, content) ] in
  let form_data := set_each "countries_iso[]" (COUNTRIES_ISO cfg) form_data in
  let form_data :=
    match hashtags with
    | Some (h :: hs) => set_each "hashtags[]" (h :: hs) form_data
    | _ => dict_set "hashtags[]" ""%string form_data
    end in
  match media_urls with
  | Some (u :: us) => set_each "media_files_urls[]" (u :: us) form_data
  | _ => form_data
  end.

(** ** [AutomatedPosterBot.get_status] *)

(** The dict [get_status] returns; [is_running] is the flag of the bot. *)
Record status := {
  status_is_running : bool;
  posts_today : Z;
  random_posts_today : Z;
  scheduled_posts_today : Z;
  last_post_time : option datetime;
  scheduled_jobs : nat
}.

Definition get_status (is_running : bool) (now : datetime) (w : world)
  : status :=
  {| status_is_running := is_running;
     posts_today := get_today_posts_count (database_manager w) now None;
     random_posts_today :=
       get_today_posts_count (database_manager w) now (Some "RANDOM"%string);
     scheduled_posts_today :=
       get_today_posts_count (database_manager w) now
         (Some "SCHEDULED"%string);
     last_post_time := get_last_post_time (database_manager w) now;
     scheduled_jobs := List.length (get_scheduled_jobs w) |}.

(** * Properties *)

(** ** Rationals, rounding and clock fields *)

Lemma round_half_even_floor (x : Q) : Qfloor x <= round_half_even x.
Proof.
  unfold round_half_even.
  destruct (Qcompare _ _); [destruct (Z.even _)| |]; lia.
Qed.

Lemma round_half_even_lower (k : Z) (x : Q) :
  (inject_Z k <= x)%Q -> k <= round_half_even x.
Proof.
  intros H. apply Qfloor_resp_le in H. rewrite Qfloor_Z in H.
  pose proof (round_half_even_floor x). lia.
Qed.

Lemma timedelta_minutes_lower (x : Q) :
  (MIN_INTERVAL_MINUTES <= x)%Q -> 30 * us_per_minute <= timedelta_minutes x.
Proof.
  intros H. unfold timedelta_minutes. apply round_half_even_lower.
  unfold MIN_INTERVAL_MINUTES in H.
  rewrite inject_Z_mult.
  apply Qmult_le_compat_r; [exact H | discriminate].
Qed.

Lemma min_interval_lower (n : Z) (h : Q) :
  (MIN_INTERVAL_MINUTES <= min_interval n h)%Q.
Proof. unfold min_interval. apply Q.le_max_l. Qed.

Lemma max_interval_lower (n : Z) (h : Q) :
  (min_interval n h <= max_interval n h)%Q.
Proof. unfold max_interval. apply Q.le_max_r. Qed.

Lemma random_range (g : Random.rng) :
  (0 <= fst (Random.random g) /\ fst (Random.random g) < 1)%Q.
Proof.
  unfold Random.random; simpl.
  assert (Hm : 0 <= g O mod Random.two53 < Random.two53)
    by (apply Z.mod_pos_bound; reflexivity).
  assert (Hp : (0 < inject_Z Random.two53)%Q) by reflexivity.
  split.
  - apply Qle_shift_div_l; [exact Hp|].
    rewrite Qmult_0_l. change 0%Q with (inject_Z 0).
    rewrite <- Zle_Qle. lia.
  - apply Qlt_shift_div_r; [exact Hp|].
    rewrite Qmult_1_l. rewrite <- Zlt_Qlt. lia.
Qed.

Lemma uniform_drawn (a b : Q) (g : Random.rng) :
  drawn_from a b (fst (Random.uniform a b g)).
Proof.
  unfold Random.uniform.
  destruct (Random.random g) as [u g'] eqn:E.
  pose proof (random_range g) as [H0 H1]. rewrite E in H0, H1.
  exists u. simpl in *. auto.
Qed.

Lemma drawn_from_range (a b x : Q) :
  (a <= b)%Q -> drawn_from a b x -> (a <= x /\ x <= b)%Q.
Proof.
  intros Hab (u & H0 & H1 & ->). split; nra.
Qed.

Lemma make_fields (d h m s us : Z) :
  0 <= h < 24 -> 0 <= m < 60 -> 0 <= s < 60 -> 0 <= us < us_per_second ->
  ordinal (make d h m s us) = d /\ hour (make d h m s us) = h
  /\ minute (make d h m s us) = m.
Proof.
  intros Hh Hm Hs Hus.
  unfold ordinal, hour, minute, make, us_per_day, us_per_hour,
    us_per_minute, us_per_second in *.
  repeat split.
  - symmetry. apply (Z.div_unique _ _ d
      (h * 3600000000 + m * 60000000 + s * 1000000 + us)); lia.
  - rewrite <- (Z.div_unique _ (60 * (60 * 1000000)) (d * 24 + h)
      (m * 60000000 + s * 1000000 + us)) by lia.
    symmetry. apply (Z.mod_unique _ _ d); lia.
  - rewrite <- (Z.div_unique _ (60 * 1000000) (d * 1440 + h * 60 + m)
      (s * 1000000 + us)) by lia.
    symmetry. apply (Z.mod_unique _ _ (d * 24 + h)); lia.
Qed.


(** ** [sorted] *)

Section SortedFacts.
Context {A : Type} (key : A -> Z).

Lemma insert_by_perm (x : A) (l : list A) :
  Permutation (x :: l) (insert_by key x l).
Proof.
  induction l as [|y l IH]; simpl; [reflexivity|].
  destruct (key x <=? key y); [reflexivity|].
  rewrite perm_swap. now apply perm_skip.
Qed.

Lemma sorted_by_perm (l : list A) : Permutation l (sorted_by key l).
Proof.
  induction l as [|x l IH]; simpl; [constructor|].
  rewrite <- insert_by_perm. now apply perm_skip.
Qed.

Lemma sorted_by_length (l : list A) :
  List.length (sorted_by key l) = List.length l.
Proof. symmetry. apply Permutation_length, sorted_by_perm. Qed.

Lemma sorted_by_In (x : A) (l : list A) :
  In x (sorted_by key l) <-> In x l.
Proof.
  split; apply Permutation_in;
    [symmetry|]; apply sorted_by_perm.
Qed.
End SortedFacts.



Lemma sorted_fixed (l : list datetime) : Sorted Z.le l -> sorted l = l.
Proof.
  unfold sorted. induction 1 as [|x l Hs IH Hd]; simpl; [reflexivity|].
  rewrite IH. destruct Hd as [|y l Hxy]; simpl; [reflexivity|].
  destruct (x <=? y) eqn:E; [reflexivity | lia].
Qed.

(** ** The planning loop *)

Lemma midnight_guard_guarded (t : datetime) (g : Random.rng) :
  guarded t (fst (midnight_guard t g)).
Proof.
  unfold guarded, midnight_guard.
  destruct (23 <=? hour t) eqn:E; cbn [fst Random.randint].
  - right. split; [lia|]. exists (0 + g O mod (59 - 0 + 1)).
    split; [|reflexivity].
    change (59 - 0 + 1) with 60.
    pose proof (Z.mod_pos_bound (g O) 60 eq_refl). lia.
  - left. split; [lia | reflexivity].
Qed.


Lemma draw_interval_drawn (lo hi : Q) (i : nat) (g : Random.rng) :
  drawn_from lo (upper_bound lo hi i) (fst (draw_interval lo hi i g)).
Proof. destruct i; simpl; apply uniform_drawn. Qed.

Lemma plan_trace_length (k i : nat) (lo hi : Q) (t : datetime)
    (g : Random.rng) :
  List.length (fst (plan_trace k i lo hi t g)) = k.
Proof.
  revert i t g. induction k as [|k IH]; intros i t g; simpl; [reflexivity|].
  destruct (draw_interval lo hi i g) as [iv g1].
  destruct (midnight_guard _ g1) as [t' g2].
  specialize (IH (S i) t' g2).
  destruct (plan_trace k (S i) lo hi t' g2) as [rest g3]. simpl in *.
  now rewrite IH.
Qed.

Lemma plan_trace_chained (k i : nat) (lo hi : Q) (t : datetime)
    (g : Random.rng) :
  chained lo hi t i (fst (plan_trace k i lo hi t g)).
Proof.
  revert i t g. induction k as [|k IH]; intros i t g; simpl; [exact I|].
  pose proof (draw_interval_drawn lo hi i g) as Hd.
  destruct (draw_interval lo hi i g) as [iv g1]. simpl in Hd.
  pose proof (midnight_guard_guarded (t + timedelta_minutes iv) g1) as Hg.
  destruct (midnight_guard _ g1) as [t' g2]. simpl in Hg.
  specialize (IH (S i) t' g2).
  destruct (plan_trace k (S i) lo hi t' g2) as [rest g3]. simpl in *.
  repeat split; assumption.
Qed.



Lemma chained_spaced (lo hi : Q) (steps : list slot_step) :
  (MIN_INTERVAL_MINUTES <= lo)%Q -> (lo <= hi)%Q ->
  forall (t : datetime) (i : nat),
  chained lo hi t i steps ->
  Forall (fun s => hour (step_computed s) < 23) steps ->
  Forall (fun u => t + 30 * us_per_minute <= u) (map step_slot steps)
  /\ Sorted (fun a b => 30 * us_per_minute <= b - a) (map step_slot steps).
Proof.
  intros Hlo Hhi.
  assert (Hpos : (0 <= lo)%Q)
    by (unfold MIN_INTERVAL_MINUTES in Hlo; lra).
  induction steps as [|s rest IH]; intros t i Hc Hh; simpl.
  - split; constructor.
  - destruct Hc as (Hs & Hd & Hcmp & Hg & Hrest).
    inversion Hh as [|? ? Hs23 Hrest23]; subst.
    destruct (IH _ _ Hrest Hrest23) as (Hall & Hsorted).
    assert (Hslot : step_start s + 30 * us_per_minute <= step_slot s).
    { destruct Hg as [[_ ->]|[Hge _]]; [|lia].
      rewrite Hcmp.
      assert (Hiv : (MIN_INTERVAL_MINUTES <= step_interval s)%Q).
      { apply drawn_from_range in Hd.
        - destruct Hd as [Hd _]. lra.
        - destruct i; simpl; lra. }
      pose proof (timedelta_minutes_lower _ Hiv). clock_lia. }
    split.
    + constructor; [exact Hslot|].
      eapply Forall_impl; [|exact Hall].
      intros u Hu. cbv beta in Hu |- *.
      clock_lia.
    + constructor; [exact Hsorted|].
      destruct (map step_slot rest) as [|u us]; constructor.
      inversion Hall; subst. clock_lia.
Qed.

Lemma plan_trace_ext (k : nat) (lo hi : Q) :
  forall (i : nat) (t : datetime) (g g' : Random.rng),
  (forall n, g n = g' n) ->
  fst (plan_trace k i lo hi t g) = fst (plan_trace k i lo hi t g')
  /\ (forall n, snd (plan_trace k i lo hi t g) n
                = snd (plan_trace k i lo hi t g') n).
Proof.
  induction k as [|k IH]; intros i t g g' He; simpl; [auto|].
  assert (Hd : fst (draw_interval lo hi i g) = fst (draw_interval lo hi i g')
               /\ forall n, snd (draw_interval lo hi i g) n
                            = snd (draw_interval lo hi i g') n).
  { destruct i; unfold draw_interval, Random.uniform, Random.random,
      Random.advance; simpl; rewrite (He O); auto. }
  destruct (draw_interval lo hi i g) as [iv g1].
  destruct (draw_interval lo hi i g') as [iv' g1'].
  simpl in Hd. destruct Hd as [<- Hg1].
  assert (Hm : fst (midnight_guard (t + timedelta_minutes iv) g1)
               = fst (midnight_guard (t + timedelta_minutes iv) g1')
               /\ forall n, snd (midnight_guard (t + timedelta_minutes iv) g1) n
                  = snd (midnight_guard (t + timedelta_minutes iv) g1') n).
  { unfold midnight_guard, Random.randint, Random.advance.
    destruct (23 <=? hour _); simpl; [rewrite (Hg1 O)|]; auto. }
  destruct (midnight_guard _ g1) as [t1 g2].
  destruct (midnight_guard _ g1') as [t1' g2'].
  simpl in Hm. destruct Hm as [<- Hg2].
  destruct (IH (S i) t1 g2 g2' Hg2) as [Hf Hs].
  destruct (plan_trace k (S i) lo hi t1 g2) as [rest g3].
  destruct (plan_trace k (S i) lo hi t1 g2') as [rest' g3'].
  simpl in *. subst. auto.
Qed.

Lemma distribute_planned (num_posts : Z) (hours_remaining : Q)
    (now : datetime) (g : Random.rng) :
  0 < num_posts -> (0 < hours_remaining)%Q ->
  fst (distribute_posts_intelligently num_posts hours_remaining now g)
  = sorted (map step_slot (fst (plan_steps num_posts hours_remaining now g))).
Proof.
  intros Hn Hh. unfold distribute_posts_intelligently.
  destruct (num_posts <=? 0) eqn:En; [lia|].
  destruct (Qle_bool hours_remaining 0) eqn:Eh.
  - apply Qle_bool_iff in Eh. lra.
  - simpl. now destruct (plan_steps _ _ _ _).
Qed.

Lemma distribute_empty (num_posts : Z) (hours_remaining : Q)
    (now : datetime) (g : Random.rng) :
  num_posts <= 0 \/ (hours_remaining <= 0)%Q ->
  distribute_posts_intelligently num_posts hours_remaining now g = ([], g).
Proof.
  intros [Hn|Hh]; unfold distribute_posts_intelligently.
  - destruct (num_posts <=? 0) eqn:En; [reflexivity | lia].
  - apply Qle_bool_iff in Hh. rewrite Hh. now rewrite orb_true_r.
Qed.

Lemma plan_steps_length (num_posts : Z) (hours_remaining : Q)
    (now : datetime) (g : Random.rng) :
  List.length (fst (plan_steps num_posts hours_remaining now g))
  = Z.to_nat num_posts.
Proof. apply plan_trace_length. Qed.

Lemma plan_steps_chained (num_posts : Z) (hours_remaining : Q)
    (now : datetime) (g : Random.rng) :
  chained (min_interval num_posts hours_remaining)
    (max_interval num_posts hours_remaining) now O
    (fst (plan_steps num_posts hours_remaining now g)).
Proof. apply plan_trace_chained. Qed.

Lemma distribute_length (num_posts : Z) (hours_remaining : Q)
    (now : datetime) (g : Random.rng) :
  0 < num_posts -> (0 < hours_remaining)%Q ->
  List.length
    (fst (distribute_posts_intelligently num_posts hours_remaining now g))
  = Z.to_nat num_posts.
Proof.
  intros Hn Hh. rewrite distribute_planned by assumption.
  unfold sorted. rewrite sorted_by_length, length_map.
  apply plan_steps_length.
Qed.

(** The guard of the loop never fired: a decidable check. *)
Lemma guard_free_check (steps : list slot_step) :
  forallb (fun s => hour (step_computed s) <? 23) steps = true ->
  Forall (fun s => hour (step_computed s) < 23) steps.
Proof.
  intros H. apply Forall_forall. intros s Hs.
  rewrite forallb_forall in H. apply H in Hs. lia.
Qed.



Lemma distribute_guard_free (num_posts : Z) (hours_remaining : Q)
    (now : datetime) (g : Random.rng) :
  0 < num_posts -> (0 < hours_remaining)%Q ->
  Forall (fun s => hour (step_computed s) < 23)
    (fst (plan_steps num_posts hours_remaining now g)) ->
  fst (distribute_posts_intelligently num_posts hours_remaining now g)
  = map step_slot (fst (plan_steps num_posts hours_remaining now g)).
Proof.
  intros Hn Hh Hfree. rewrite distribute_planned by assumption.
  destruct (chained_spaced _ _ _
              (min_interval_lower num_posts hours_remaining)
              (max_interval_lower num_posts hours_remaining)
              _ _ (plan_steps_chained num_posts hours_remaining now g)
              Hfree) as (_ & Hsp).
  apply sorted_fixed.
  clear -Hsp. induction Hsp as [|x l Hs IH Hd]; constructor; auto.
  destruct Hd; constructor. clock_lia.
Qed.


(** ** The slot planner: claims C9, C10, C7, C1 and C4 *)

(** C9: [distribute_posts_intelligently] called with [num_posts = 0], or
    with [hours_remaining <= 0], returns the empty list (and leaves the
    random source untouched); the function has no failing branch. *)
Theorem C9_empty_plan (num_posts : Z) (hours_remaining : Q)
    (now : datetime) (g : Random.rng) :
  num_posts = 0 \/ (hours_remaining <= 0)%Q ->
  distribute_posts_intelligently num_posts hours_remaining now g = ([], g).
Proof.
  intros [->|Hh]; apply distribute_empty; [left; lia | right; exact Hh].
Qed.

Lemma C9_empty_plan_witness :
  distribute_posts_intelligently 0 5 (make 0 8 0 0 0) (Random.tape [1; 2])
  = ([], Random.tape [1; 2])
  /\ distribute_posts_intelligently 3 0 (make 0 8 0 0 0) (Random.tape [1; 2])
     = ([], Random.tape [1; 2]).
Proof.
  split.
  - apply (C9_empty_plan 0 5). left. reflexivity.
  - apply (C9_empty_plan 3 0). right. discriminate.
Defined.









(** Where no computed time reaches clock hour 23 (the guard of the loop
    rewrites no slot), every two adjacent elements of the returned plan
    are at least [MIN_INTERVAL_MINUTES] apart. *)
Theorem spacing_without_guard (num_posts : Z) (hours_remaining : Q)
    (now : datetime) (g : Random.rng) :
  Forall (fun s => hour (step_computed s) < 23)
    (fst (plan_steps num_posts hours_remaining now g)) ->
  Sorted (fun a b => 30 * us_per_minute <= b - a)
    (fst (distribute_posts_intelligently num_posts hours_remaining now g)).
Proof.
  intros Hfree.
  destruct (Z.ltb_spec 0 num_posts) as [Hn|Hn];
    [destruct (Qlt_le_dec 0 hours_remaining) as [Hh|Hh]|].
  - rewrite distribute_guard_free by assumption.
    now destruct (chained_spaced _ _ _
                    (min_interval_lower num_posts hours_remaining)
                    (max_interval_lower num_posts hours_remaining)
                    _ _ (plan_steps_chained num_posts hours_remaining now g)
                    Hfree).
  - rewrite distribute_empty by (right; exact Hh). constructor.
  - rewrite distribute_empty by (left; lia). constructor.
Qed.

Lemma spacing_without_guard_witness :
  Sorted (fun a b => 30 * us_per_minute <= b - a)
    (fst (distribute_posts_intelligently 3 5 (make 0 8 0 0 0)
            (Random.tape [1; 2; 3]))).
Proof.
  apply (spacing_without_guard 3 5 (make 0 8 0 0 0)
           (Random.tape [1; 2; 3])).
  apply guard_free_check. vm_compute. reflexivity.
Defined.

(** C4: the planner breaks the minimum it builds its intervals from
    ([MIN_INTERVAL_MINUTES = 30], "Minimum time between posts").  At 22:35
    with two posts to plan and 85 minutes left, the lower bound of the
    intervals is 30 minutes and both intervals drawn are 30 minutes; the
    two times computed, 23:05 and 23:10, reach clock hour 23, and the guard
    of the loop moves them to 22:40 and 22:41.  The plan returned holds two
    slots one minute apart. *)
Theorem C4_guard_breaks_spacing :
  let now := make 0 22 35 0 0 in
  let g := Random.tape [0; 40; 0; 41] in
  let steps := fst (plan_steps 2 (17 # 12) now g) in
  let plan := fst (distribute_posts_intelligently 2 (17 # 12) now g) in
  (min_interval 2 (17 # 12) == MIN_INTERVAL_MINUTES)%Q
  /\ Forall (fun s => (step_interval s == MIN_INTERVAL_MINUTES)%Q) steps
  /\ map step_computed steps = [make 0 23 5 0 0; make 0 23 10 0 0]
  /\ plan = [make 0 22 40 0 0; make 0 22 41 0 0]
  /\ nth 1 plan 0 - nth 0 plan 0 = 1 * us_per_minute
  /\ ~ Sorted (fun a b => 30 * us_per_minute <= b - a) plan.
Proof.
  intros now g steps plan.
  assert (E : plan = [make 0 22 40 0 0; make 0 22 41 0 0])
    by (vm_compute; reflexivity).
  split; [reflexivity|].
  split; [repeat constructor|].
  split; [vm_compute; reflexivity|].
  split; [exact E|].
  rewrite E. split; [reflexivity|].
  intros H.
  inversion H as [|? ? _ Hd]; subst.
  inversion Hd as [|? ? Hle]; subst.
  revert Hle. clear. unfold make. clock_lia.
Qed.

(** ** The job registry *)

Lemma has_tag_In (tag : string) (j : Job) :
  has_tag tag j = true <-> In tag (tags j).
Proof.
  unfold has_tag. rewrite existsb_exists. split.
  - intros (t & Hin & E). apply String.eqb_eq in E. now subst.
  - intros H. exists tag. split; [exact H | apply String.eqb_refl].
Qed.

Lemma strftime_HM_valid (t : datetime) : valid_time (strftime_HM t).
Proof.
  unfold valid_time, strftime_HM, hour, minute; simpl.
  split; apply Z.mod_pos_bound; reflexivity.
Qed.

Lemma ordinal_bounds (t : datetime) :
  ordinal t * us_per_day <= t < ordinal t * us_per_day + us_per_day.
Proof.
  unfold ordinal.
  pose proof (Z.div_mod t us_per_day ltac:(discriminate)).
  pose proof (Z.mod_pos_bound t us_per_day eq_refl). lia.
Qed.

(** A daily job is armed strictly in the future, within one day, on its
    own clock time: today when that is still ahead, tomorrow otherwise. *)
Lemma schedule_next_run_spec (now : datetime) (c : time) :
  valid_time c ->
  let today := make (ordinal now) (time_hour c) (time_minute c) 0 0 in
  now < schedule_next_run now c <= now + timedelta_days 1
  /\ strftime_HM (schedule_next_run now c) = c
  /\ second (schedule_next_run now c) = 0
  /\ (now < today -> schedule_next_run now c = today)
  /\ (today <= now -> schedule_next_run now c = today + timedelta_days 1).
Proof.
  intros [Hh Hm] today.
  unfold schedule_next_run, replace_time. fold today.
  pose proof (ordinal_bounds now) as Hb.
  assert (Ht : ordinal now * us_per_day <= today
               < ordinal now * us_per_day + us_per_day)
    by (unfold today, make; clock_lia).
  assert (Hshift : today + timedelta_days 1
                   = make (ordinal now + 1) (time_hour c) (time_minute c) 0 0)
    by (unfold today, make; clock_lia).
  assert (Hf : forall d, strftime_HM
                 (make d (time_hour c) (time_minute c) 0 0) = c
               /\ second (make d (time_hour c) (time_minute c) 0 0) = 0).
  { intros d.
    destruct (make_fields d (time_hour c) (time_minute c) 0 0)
      as (_ & Hhr & Hmi); try lia; [unfold us_per_second; lia|].
    split.
    - unfold strftime_HM. rewrite Hhr, Hmi. now destruct c.
    - unfold second, make.
      replace (d * us_per_day + time_hour c * us_per_hour
               + time_minute c * us_per_minute + 0 * us_per_second + 0)
        with ((d * 86400 + time_hour c * 3600 + time_minute c * 60)
              * us_per_second) by clock_lia.
      rewrite Z.div_mul by discriminate.
      replace (d * 86400 + time_hour c * 3600 + time_minute c * 60)
        with (0 + (d * 1440 + time_hour c * 60 + time_minute c) * 60) by lia.
      now rewrite Z.mod_add by discriminate. }
  destruct (now <? today) eqn:E.
  - repeat split; try apply Hf; try clock_lia.
  - rewrite Hshift.
    repeat split; try apply Hf; rewrite <- ?Hshift; try clock_lia.
Qed.

Lemma install_random_posts_planned (now : datetime)
    (post_times : list datetime) :
  forall (i : nat) (js : list Job),
  install_random_posts now i post_times js
  = js ++ planned_jobs now i post_times.
Proof.
  induction post_times as [|t rest IH]; intros i js; simpl.
  - now rewrite app_nil_r.
  - rewrite IH. unfold install_random_post, every_day_at_do_tag.
    now rewrite <- !app_assoc.
Qed.

Lemma planned_jobs_length (now : datetime) (post_times : list datetime) :
  forall i, List.length (planned_jobs now i post_times)
            = (2 * List.length post_times)%nat.
Proof.
  induction post_times as [|t rest IH]; intros i; simpl; [reflexivity|].
  rewrite IH. lia.
Qed.

Lemma planned_jobs_nth (now : datetime) (post_times : list datetime) :
  forall (i k : nat) (t : datetime),
  nth_error post_times k = Some t ->
  nth_error (planned_jobs now i post_times) (2 * k)
  = nth_error (slot_jobs now (i + k) t) 0
  /\ nth_error (planned_jobs now i post_times) (2 * k + 1)
     = nth_error (slot_jobs now (i + k) t) 1.
Proof.
  induction post_times as [|t0 rest IH]; intros i k t Hk.
  - destruct k; discriminate.
  - destruct k as [|k]; simpl in Hk.
    + injection Hk as ->. rewrite Nat.add_0_r. split; reflexivity.
    + destruct (IH (S i) k t Hk) as [H0 H1].
      replace (2 * S k + 1)%nat with (S (S (2 * k + 1))) by lia.
      replace (2 * S k)%nat with (S (S (2 * k))) by lia.
      replace (i + S k)%nat with (S i + k)%nat by lia.
      exact (conj H0 H1).
Qed.

Lemma planned_jobs_posts (now : datetime) (post_times : list datetime) :
  forall i, List.length (filter is_post (planned_jobs now i post_times))
            = List.length post_times.
Proof.
  induction post_times as [|t rest IH]; intros i; simpl; [reflexivity|].
  now rewrite IH.
Qed.

Lemma hour_minute_before (t : datetime) :
  minute (t - timedelta_hours 1) = minute t
  /\ hour (t - timedelta_hours 1) = (hour t - 1) mod 24.
Proof.
  unfold minute, hour, timedelta_hours. split.
  - replace (t - 1 * us_per_hour) with (t + (-60) * us_per_minute)
      by clock_lia.
    rewrite Z.div_add by discriminate.
    replace (t / us_per_minute + -60) with (t / us_per_minute + (-1) * 60)
      by lia.
    now rewrite Z.mod_add by discriminate.
  - replace (t - 1 * us_per_hour) with (t + (-1) * us_per_hour) by lia.
    rewrite Z.div_add by discriminate.
    replace (t / us_per_hour + -1) with (t / us_per_hour - 1) by lia.
    now rewrite Zminus_mod_idemp_l.
Qed.

Lemma schedule_remaining_posts_planned (now : datetime) (w : world) :
  0 < calculate_remaining_posts w now ->
  (0 < calculate_time_remaining_today now)%Q ->
  jobs (schedule_remaining_posts now w)
  = jobs w ++ planned_jobs now 0
      (fst (distribute_posts_intelligently (calculate_remaining_posts w now)
              (calculate_time_remaining_today now) now (rand w)))
  /\ database_manager (schedule_remaining_posts now w) = database_manager w.
Proof.
  intros Hr Hh. unfold schedule_remaining_posts.
  destruct (calculate_remaining_posts w now =? 0) eqn:Er; [lia|].
  destruct (Qle_bool (calculate_time_remaining_today now) 0) eqn:Eh.
  - apply Qle_bool_iff in Eh. lra.
  - destruct (distribute_posts_intelligently _ _ _ _) as [ts g'].
    simpl. split; [apply install_random_posts_planned | reflexivity].
Qed.

Lemma schedule_remaining_posts_extends (now : datetime) (w : world) :
  exists added, jobs (schedule_remaining_posts now w) = jobs w ++ added.
Proof.
  unfold schedule_remaining_posts.
  destruct (calculate_remaining_posts w now =? 0);
    [exists []; now rewrite app_nil_r|].
  destruct (Qle_bool _ 0); [exists []; now rewrite app_nil_r|].
  destruct (distribute_posts_intelligently _ _ _ _) as [ts g'].
  simpl. rewrite install_random_posts_planned. eauto.
Qed.

(** ** Install, Cancel and planning errors: claims C5, C8 and C3 *)

(** C5, counterexample: at 22:00 a slot planned for 22:30 has its notice
    time (21:30) in the past, and the notice job is installed all the
    same. *)
Lemma C5_counterexample :
  ~ notice_omitted_when_past (make 0 22 0 0 0) [make 0 22 30 0 0]
      (install_random_posts (make 0 22 0 0 0) 0 [make 0 22 30 0 0] []).
Proof.
  intros H.
  apply (H O (make 0 22 30 0 0) eq_refl ltac:(unfold make; clock_lia)
           (new_job (make 0 22 0 0 0)
              (strftime_HM (make 0 22 30 0 0 - timedelta_hours 1))
              (send_notification "Upcoming Post"
                 ("A RANDOM post is scheduled at "
                  ++ show_HM (strftime_HM (make 0 22 30 0 0))))
              (notify_random_post_tag 0))).
  - right. left. reflexivity.
  - left. reflexivity.
Qed.

(** C5 (amended): for each planned slot [k] the install loop appends
    exactly two jobs, side by side: the post job tagged [random_post_k] at
    the slot's clock time, and one notice job tagged
    [notify_random_post_k] whose clock time is the slot's clock time minus
    60 minutes (same minute, previous hour, wrapping at midnight).  The
    notice job is installed in every case; the registry arms it strictly
    in the future, at most one day ahead, on that clock time (so a notice
    time already past is deferred to the next day). *)
Theorem C5_notice_always_installed (now : datetime)
    (post_times : list datetime) (js : list Job) :
  exists added,
    install_random_posts now 0 post_times js = js ++ added
    /\ List.length added = (2 * List.length post_times)%nat
    /\ forall k t, nth_error post_times k = Some t ->
         exists pj nj,
           nth_error added (2 * k) = Some pj
           /\ nth_error added (2 * k + 1) = Some nj
           /\ tags pj = [random_post_tag k]
           /\ func pj = callback_function "RANDOM"
           /\ at_time pj = strftime_HM t
           /\ tags nj = [notify_random_post_tag k]
           /\ (exists message,
                 func nj = send_notification "Upcoming Post" message)
           /\ at_time nj = strftime_HM (t - timedelta_hours 1)
           /\ time_minute (at_time nj) = time_minute (at_time pj)
           /\ time_hour (at_time nj) = (time_hour (at_time pj) - 1) mod 24
           /\ now < next_run nj <= now + timedelta_days 1
           /\ strftime_HM (next_run nj) = at_time nj.
Proof.
  exists (planned_jobs now 0 post_times).
  split; [apply install_random_posts_planned|].
  split; [apply planned_jobs_length|].
  intros k t Hk.
  destruct (planned_jobs_nth now post_times O k t Hk) as [H0 H1].
  simpl slot_jobs in H0, H1. simpl nth_error in H0 at 2.
  simpl nth_error in H1 at 2.
  eexists. eexists.
  split; [exact H0|]. split; [exact H1|].
  destruct (hour_minute_before t) as [Hmin Hhr].
  destruct (schedule_next_run_spec now
              (strftime_HM (t - timedelta_hours 1))
              (strftime_HM_valid _)) as (Hrange & Hclock & _).
  unfold new_job; cbn [tags func at_time next_run strftime_HM
                         time_minute time_hour].
  repeat split; try reflexivity; try assumption; try apply Hrange.
  eexists. reflexivity.
Qed.

(** After the daily schedule is initialised at 08:00 (two Fixed jobs, five
    random posts with their notices), [clear_random_posts] does not cancel
    by prefix: no job carries the tag ["random_post"] itself. *)
Lemma clear_random_posts_not_by_prefix :
  ~ cancels_by_prefix "random_post"
      (jobs (initialize_daily_schedule (make 0 8 0 0 0) (idle_world false)))
      (jobs (clear_random_posts
               (initialize_daily_schedule (make 0 8 0 0 0)
                  (idle_world false)))).
Proof.
  unfold cancels_by_prefix. intros H.
  apply (f_equal (@List.length Job)) in H.
  assert (E1 : List.length
                 (jobs (clear_random_posts
                          (initialize_daily_schedule (make 0 8 0 0 0)
                             (idle_world false)))) = 12%nat)
    by (vm_compute; reflexivity).
  assert (E2 : List.length
                 (filter
                    (fun j =>
                       negb (existsb (String.prefix "random_post") (tags j)))
                    (jobs (initialize_daily_schedule (make 0 8 0 0 0)
                             (idle_world false)))) = 7%nat)
    by (vm_compute; reflexivity).
  rewrite E1, E2 in H. discriminate H.
Qed.

(** [schedule.clear(tag)] keeps exactly the jobs that do not carry [tag]
    itself among their tags, in their order, and removes the others.  In
    particular a registry in which no job carries the tag is left as it
    is. *)
Lemma clear_exact_tag (tag : string) (js : list Job) :
  (forall j, In j (clear (Some tag) js) <-> In j js /\ ~ In tag (tags j))
  /\ (forall js1 js2, clear (Some tag) (js1 ++ js2)
                      = clear (Some tag) js1 ++ clear (Some tag) js2)
  /\ (List.length js
      = List.length (clear (Some tag) js)
        + List.length (filter (has_tag tag) js))%nat
  /\ ((forall j, In j js -> ~ In tag (tags j)) -> clear (Some tag) js = js).
Proof.
  unfold clear. split; [|split; [|split]].
  - intros j. rewrite filter_In. split.
    + intros [Hin Ht]. split; [exact Hin|]. intros Hc.
      apply has_tag_In in Hc. rewrite Hc in Ht. discriminate.
    + intros [Hin Ht]. split; [exact Hin|].
      destruct (has_tag tag j) eqn:E; [|reflexivity].
      apply has_tag_In in E. contradiction.
  - intros js1 js2. apply filter_app.
  - induction js as [|j js IH]; simpl; [reflexivity|].
    destruct (has_tag tag j); simpl; lia.
  - intros Hfree. induction js as [|j js IH]; simpl; [reflexivity|].
    destruct (has_tag tag j) eqn:E.
    + apply has_tag_In in E. exfalso. apply (Hfree j); [now left | exact E].
    + simpl. f_equal. apply IH. intros j' Hj'. apply Hfree. now right.
Qed.

(** The tags the planning step gives its jobs are not the tag that
    [clear_random_posts] cancels. *)
Lemma planned_jobs_tags (now : datetime) (post_times : list datetime) :
  forall (i : nat) (j : Job),
  In j (planned_jobs now i post_times) ->
  exists k, tags j = [random_post_tag k]
            \/ tags j = [notify_random_post_tag k].
Proof.
  induction post_times as [|t rest IH]; intros i j Hj; [destruct Hj|].
  cbn [planned_jobs] in Hj. apply in_app_or in Hj.
  destruct Hj as [[<-|[<-|[]]]|Hj].
  - exists i. now left.
  - exists i. now right.
  - eapply IH; eauto.
Qed.

Lemma clear_random_planned_jobs (now : datetime) (i : nat)
    (post_times : list datetime) :
  clear (Some "random_post"%string) (planned_jobs now i post_times)
  = planned_jobs now i post_times.
Proof.
  apply clear_exact_tag. intros j Hj Htag.
  apply planned_jobs_tags in Hj. destruct Hj as (k & [E|E]);
    rewrite E in Htag; destruct Htag as [Htag|[]]; discriminate Htag.
Qed.

Lemma schedule_remaining_posts_added (now : datetime) (w : world) :
  exists post_times,
    jobs (schedule_remaining_posts now w)
    = jobs w ++ planned_jobs now 0 post_times.
Proof.
  unfold schedule_remaining_posts.
  destruct (calculate_remaining_posts w now =? 0);
    [exists []; simpl; now rewrite app_nil_r|].
  destruct (Qle_bool _ 0); [exists []; simpl; now rewrite app_nil_r|].
  destruct (distribute_posts_intelligently _ _ _ _) as [ts g'].
  exists ts. simpl. apply install_random_posts_planned.
Qed.

(** C8: [clear_random_posts] ("Clear only random post schedules") clears
    no random post.  It cancels the tag ["random_post"]; the registry
    cancels by whole tag, and the planning step tags its jobs
    ["random_post_<i>"] and ["notify_random_post_<i>"].  So, whatever the
    state of the engine, every job the planning step has just installed is
    still registered after [clear_random_posts], and a freshly initialised
    daily schedule is left exactly as it was.  After an initialisation at
    08:00 with nothing posted, the five random-post jobs are all still
    registered: the jobs were not cancelled by prefix. *)
Theorem C8_clear_random_posts_clears_nothing (now : datetime) (w : world) :
  let planned := schedule_remaining_posts now w in
  let fresh := initialize_daily_schedule now w in
  let at8 :=
    initialize_daily_schedule (make 0 8 0 0 0) (idle_world false) in
  jobs (clear_random_posts planned)
  = jobs (clear_random_posts w)
    ++ skipn (List.length (jobs w)) (jobs planned)
  /\ jobs (clear_random_posts fresh) = jobs fresh
  /\ map tags (filter is_random_post (jobs (clear_random_posts at8)))
     = [["random_post_0"]; ["random_post_1"]; ["random_post_2"];
        ["random_post_3"]; ["random_post_4"]]%string
  /\ ~ cancels_by_prefix "random_post" (jobs at8)
         (jobs (clear_random_posts at8)).
Proof.
  intros planned fresh at8. split; [|split; [|split]].
  - subst planned.
    destruct (schedule_remaining_posts_added now w) as (ts & E).
    unfold clear_random_posts. cbn [jobs set_jobs]. rewrite E.
    rewrite skipn_app, skipn_all, Nat.sub_diag. cbn [skipn app].
    destruct (clear_exact_tag "random_post" (jobs w)) as (_ & Happ & _).
    now rewrite Happ, clear_random_planned_jobs.
  - subst fresh. unfold initialize_daily_schedule.
    set (w1 := schedule_daily_post now (clear_all_schedules w)).
    destruct (schedule_remaining_posts_added now w1) as (ts & E).
    unfold clear_random_posts. cbn [jobs set_jobs]. rewrite E.
    destruct (clear_exact_tag "random_post" (jobs w1)) as (_ & Happ & _).
    now rewrite Happ, clear_random_planned_jobs.
  - vm_compute. reflexivity.
  - exact clear_random_posts_not_by_prefix.
Qed.

(** C3, counterexample: at 08:00, with a database on which every statement
    raises, planning installs ten jobs. *)
Lemma C3_counterexample : ~ no_op_plan (make 0 8 0 0 0) (idle_world true).
Proof.
  unfold no_op_plan. intros H.
  apply (f_equal (@List.length Job)) in H.
  assert (E : List.length
                (jobs (schedule_remaining_posts (make 0 8 0 0 0)
                         (idle_world true))) = 10%nat)
    by (vm_compute; reflexivity).
  rewrite E in H. discriminate H.
Qed.

(** C3 (amended): when the quota read fails, [get_today_posts_count]
    answers 0, so the remainder is the full quota of 5; planning completes
    and, while time remains today, appends the jobs of a five-slot plan:
    ten jobs, five of them posts. *)
Theorem C3_failed_read_plans_full_quota (now : datetime) (w : world) :
  db_raises (database_manager w) = true ->
  (0 < calculate_time_remaining_today now)%Q ->
  get_today_posts_count (database_manager w) now (Some "RANDOM"%string) = 0
  /\ calculate_remaining_posts w now = RANDOM_POSTS_PER_DAY
  /\ exists added,
       jobs (schedule_remaining_posts now w) = jobs w ++ added
       /\ List.length added = 10%nat
       /\ List.length (filter is_post added) = 5%nat.
Proof.
  intros Hdb Hh.
  assert (Hc : get_today_posts_count (database_manager w) now
                 (Some "RANDOM"%string) = 0)
    by (unfold get_today_posts_count; now rewrite Hdb).
  assert (Hr : calculate_remaining_posts w now = RANDOM_POSTS_PER_DAY)
    by (unfold calculate_remaining_posts; rewrite Hc; reflexivity).
  split; [exact Hc|]. split; [exact Hr|].
  destruct (schedule_remaining_posts_planned now w) as [Hj _];
    [rewrite Hr; reflexivity | exact Hh |].
  eexists. split; [exact Hj|].
  rewrite planned_jobs_length, planned_jobs_posts, Hr.
  rewrite distribute_length by (try reflexivity; exact Hh).
  split; reflexivity.
Qed.

Lemma C3_failed_read_plans_full_quota_witness :
  calculate_remaining_posts (idle_world true) (make 0 8 0 0 0) = 5.
Proof.
  apply (C3_failed_read_plans_full_quota (make 0 8 0 0 0) (idle_world true));
    reflexivity.
Defined.

(** ** Dispatch: [run_pending] and the callback *)

Lemma post_callback_extends (post_type : string) (now : datetime)
    (w : world) :
  exists added, jobs (post_callback post_type now w) = jobs w ++ added.
Proof.
  unfold post_callback, make_post.
  destruct (publish w O && String.eqb post_type "RANDOM").
  - destruct (publish w O);
      match goal with
      | |- context [schedule_remaining_posts now ?w'] =>
          destruct (schedule_remaining_posts_extends now w') as [a Ha];
          exists a; rewrite Ha; reflexivity
      end.
  - exists []. rewrite app_nil_r. now destruct (publish w O).
Qed.

Lemma call_extends (f : job_func) (now : datetime) (w : world) :
  exists added, jobs (call f now w) = jobs w ++ added.
Proof.
  destruct f as [post_type|title message]; simpl.
  - apply post_callback_extends.
  - exists []. now rewrite app_nil_r.
Qed.

Lemma set_nth_nth {A : Type} (x : A) (l : list A) :
  forall i k,
  nth_error (set_nth i x l) k
  = if (k =? i)%nat
    then match nth_error l k with Some _ => Some x | None => None end
    else nth_error l k.
Proof.
  induction l as [|y l IH]; intros i k.
  - destruct i as [|i], k as [|k]; simpl; try reflexivity.
    now destruct (k =? i)%nat.
  - destruct i as [|i], k as [|k]; simpl; try reflexivity. apply IH.
Qed.

Lemma run_job_nth (now : datetime) (i : nat) (w : world) :
  forall k jk, nth_error (jobs w) k = Some jk ->
  nth_error (jobs (run_job now i w)) k
  = Some (if (k =? i)%nat then ran now jk else jk).
Proof.
  intros k jk Hk. unfold run_job.
  destruct (nth_error (jobs w) i) as [j|] eqn:Ei.
  - destruct (call_extends (func j) now w) as [added Ha].
    cbn [jobs set_jobs]. rewrite set_nth_nth, Ha.
    rewrite nth_error_app1 by (apply nth_error_Some; congruence).
    rewrite Hk. destruct (Nat.eqb_spec k i) as [->|_]; [|reflexivity].
    congruence.
  - destruct (Nat.eqb_spec k i) as [->|_]; [congruence | exact Hk].
Qed.

Lemma run_jobs_nth (now : datetime) (idxs : list nat) :
  forall w, NoDup idxs ->
  forall k jk, nth_error (jobs w) k = Some jk ->
  nth_error (jobs (fold_left (fun w i => run_job now i w) idxs w)) k
  = Some (if existsb (Nat.eqb k) idxs then ran now jk else jk).
Proof.
  induction idxs as [|a rest IH]; intros w Hnd k jk Hk; simpl;
    [exact Hk|].
  inversion Hnd as [|? ? Hnotin Hrest]; subst.
  rewrite (IH _ Hrest k _ (run_job_nth now a w k jk Hk)).
  destruct (Nat.eqb_spec k a) as [->|Hne]; simpl; [|reflexivity].
  destruct (existsb (Nat.eqb a) rest) eqn:E; [|reflexivity].
  apply existsb_exists in E. destruct E as (x & Hx & Ex).
  apply Nat.eqb_eq in Ex. subst. contradiction.
Qed.

Lemma run_jobs_length (now : datetime) (idxs : list nat) :
  forall w,
  (List.length (jobs w)
   <= List.length (jobs (fold_left (fun w i => run_job now i w) idxs w)))%nat.
Proof.
  induction idxs as [|a rest IH]; intros w; simpl; [lia|].
  etransitivity; [|apply IH].
  unfold run_job. destruct (nth_error (jobs w) a) as [j|]; [|lia].
  destruct (call_extends (func j) now w) as [added Ha].
  cbn [jobs set_jobs].
  assert (Hl : forall (l : list Job) i x,
             List.length (set_nth i x l) = List.length l).
  { induction l as [|y l IHl]; intros [|i] x; simpl; auto. }
  rewrite Hl, Ha, length_app. lia.
Qed.

Lemma combine_seq_In {A : Type} (l : list A) :
  forall (s i : nat) (x : A),
  In (i, x) (combine (seq s (List.length l)) l)
  <-> (s <= i)%nat /\ nth_error l (i - s) = Some x.
Proof.
  induction l as [|y l IH]; intros s i x; simpl.
  - split; [tauto|]. intros [_ H]. destruct (i - s)%nat; discriminate.
  - rewrite IH. split.
    + intros [E|[Hle Hn]].
      * injection E as <- <-. rewrite Nat.sub_diag. auto.
      * split; [lia|]. replace (i - s)%nat with (S (i - S s)) by lia.
        exact Hn.
    + intros [Hle Hn]. destruct (i - s)%nat as [|d] eqn:Ed.
      * left. injection Hn as <-. f_equal. lia.
      * right. split; [lia|]. replace (i - S s)%nat with d by lia.
        exact Hn.
Qed.

Lemma combine_seq_fst {A : Type} (l : list A) :
  forall s, map fst (combine (seq s (List.length l)) l)
            = seq s (List.length l).
Proof.
  induction l as [|y l IH]; intros s; simpl; [reflexivity|].
  now rewrite IH.
Qed.

Lemma NoDup_fst_filter {A B : Type} (P : A * B -> bool) (l : list (A * B)) :
  NoDup (map fst l) -> NoDup (map fst (filter P l)).
Proof.
  induction l as [|x l IH]; simpl; intros H; [constructor|].
  inversion H as [|? ? Hnotin Hrest]; subst.
  destruct (P x); simpl; [|auto].
  constructor; [|auto].
  intros Hin. apply Hnotin. apply in_map_iff in Hin.
  destruct Hin as (y & Ey & Hy). apply filter_In in Hy.
  apply in_map_iff. exists y. tauto.
Qed.

Lemma runnable_jobs_NoDup (now : datetime) (js : list Job) :
  NoDup (runnable_jobs now js).
Proof.
  unfold runnable_jobs.
  eapply Permutation_NoDup.
  - apply Permutation_map. apply sorted_by_perm.
  - apply NoDup_fst_filter. rewrite combine_seq_fst. apply seq_NoDup.
Qed.

Lemma runnable_jobs_In (now : datetime) (js : list Job) (i : nat) :
  In i (runnable_jobs now js)
  <-> exists j, nth_error js i = Some j /\ should_run now j = true.
Proof.
  unfold runnable_jobs. rewrite in_map_iff. split.
  - intros ([i' j] & E & Hin). simpl in E. subst i'.
    apply sorted_by_In in Hin. apply filter_In in Hin.
    destruct Hin as [Hin Hs]. apply combine_seq_In in Hin.
    rewrite Nat.sub_0_r in Hin. exists j. tauto.
  - intros (j & Hn & Hs). exists (i, j). split; [reflexivity|].
    apply sorted_by_In. apply filter_In. split; [|exact Hs].
    apply combine_seq_In. rewrite Nat.sub_0_r. split; [lia | exact Hn].
Qed.

(** After [run_pending], every job of the registry is still at its place:
    a job that was due has been stamped and re-armed, any other job is
    untouched. *)
Lemma run_pending_nth (now : datetime) (w : world) (i : nat) (j : Job) :
  nth_error (jobs w) i = Some j ->
  nth_error (jobs (run_pending now w)) i
  = Some (if should_run now j then ran now j else j).
Proof.
  intros Hi. unfold run_pending.
  rewrite (run_jobs_nth now _ w (runnable_jobs_NoDup now (jobs w)) i j Hi).
  f_equal.
  destruct (existsb (Nat.eqb i) (runnable_jobs now (jobs w))) eqn:E.
  - apply existsb_exists in E. destruct E as (x & Hx & Ex).
    apply Nat.eqb_eq in Ex. subst x.
    apply runnable_jobs_In in Hx. destruct Hx as (j' & Hj' & Hs).
    rewrite Hi in Hj'. injection Hj' as <-. now rewrite Hs.
  - destruct (should_run now j) eqn:Es; [|reflexivity].
    assert (Hin : In i (runnable_jobs now (jobs w)))
      by (apply runnable_jobs_In; eauto).
    assert (Ht : existsb (Nat.eqb i) (runnable_jobs now (jobs w)) = true)
      by (apply existsb_exists; exists i; split;
          [exact Hin | apply Nat.eqb_refl]).
    congruence.
Qed.

Lemma post_callback_failure (post_type : string) (now : datetime)
    (w : world) :
  publish w O = false -> jobs (post_callback post_type now w) = jobs w.
Proof.
  intros H. unfold post_callback, make_post. rewrite H. reflexivity.
Qed.

(** ** The Fixed job and re-planning: claims C6 and C2 *)

(** C6, counterexample: at 13:00, after the configured 12:00 has passed,
    [schedule_daily_post] still installs the Fixed job, armed for 12:00 of
    the following day. *)
Lemma C6_counterexample :
  ~ fixed_job_only_today (make 0 13 0 0 0) (idle_world false).
Proof.
  intros H.
  specialize (H (new_job (make 0 13 0 0 0) SCHEDULED_POST_TIME
                   (callback_function "SCHEDULED") "daily_post")
                (or_introl eq_refl) (or_introl eq_refl)).
  assert (E : ordinal
                (next_run
                   (new_job (make 0 13 0 0 0) SCHEDULED_POST_TIME
                      (callback_function "SCHEDULED") "daily_post")) = 1)
    by (vm_compute; reflexivity).
  rewrite E in H. discriminate H.
Qed.

(** C6 (amended): [schedule_daily_post] always installs the Fixed job at
    the configured clock time 12:00 (with its notice at 11:00): armed for
    today when 12:00 is still ahead and for 12:00 of the following day
    otherwise.  Firing removes no job: after [run_pending] every job is
    still at its place in the registry, a job that was not due unchanged
    and a job that was due stamped with [last_run] and re-armed on its
    clock time, strictly in the future and at most one day ahead. *)
Theorem C6_daily_job_recurs (now : datetime) (w : world) :
  (exists dj nj,
      jobs (schedule_daily_post now w) = jobs w ++ [dj; nj]
      /\ tags dj = ["daily_post"%string]
      /\ func dj = callback_function "SCHEDULED"
      /\ at_time dj = SCHEDULED_POST_TIME
      /\ tags nj = ["notify_daily_post"%string]
      /\ at_time nj = {| time_hour := 11; time_minute := 0 |}
      /\ now < next_run dj <= now + timedelta_days 1
      /\ (now < make (ordinal now) 12 0 0 0 ->
          next_run dj = make (ordinal now) 12 0 0 0)
      /\ (make (ordinal now) 12 0 0 0 <= now ->
          next_run dj = make (ordinal now + 1) 12 0 0 0))
  /\ (forall i j, nth_error (jobs w) i = Some j ->
        exists j',
          nth_error (jobs (run_pending now w)) i = Some j'
          /\ tags j' = tags j /\ at_time j' = at_time j
          /\ func j' = func j
          /\ (should_run now j = false -> j' = j)
          /\ (should_run now j = true ->
              last_run j' = Some now
              /\ next_run j' = schedule_next_run now (at_time j)
              /\ (valid_time (at_time j) ->
                  now < next_run j' <= now + timedelta_days 1
                  /\ strftime_HM (next_run j') = at_time j)))
  /\ (List.length (jobs w) <= List.length (jobs (run_pending now w)))%nat.
Proof.
  split; [|split].
  - eexists. eexists. split.
    + unfold schedule_daily_post, every_day_at_do_tag. cbn [jobs set_jobs].
      rewrite <- app_assoc. reflexivity.
    + assert (Hv : valid_time SCHEDULED_POST_TIME)
        by (unfold valid_time; simpl; lia).
      destruct (schedule_next_run_spec now SCHEDULED_POST_TIME Hv)
        as (Hrange & _ & _ & Hahead & Hpast).
      cbn [new_job tags func at_time next_run].
      repeat split; try reflexivity; try apply Hrange.
      * exact Hahead.
      * intros Hle. rewrite (Hpast Hle).
        unfold SCHEDULED_POST_TIME, make. cbn [time_hour time_minute].
        clock_lia.
  - intros i j Hi. rewrite (run_pending_nth now w i j Hi).
    eexists. split; [reflexivity|].
    destruct (should_run now j); cbn [ran tags at_time func last_run next_run].
    + repeat split; try reflexivity; try discriminate;
        match goal with
        | Hv : valid_time _ |- _ =>
            destruct (schedule_next_run_spec now (at_time j) Hv)
              as (Hrange & Hclock & _)
        end; tauto.
    + repeat split; try reflexivity; discriminate.
  - apply run_jobs_length.
Qed.

(** C2, at the failing input: the daily schedule is initialised at 08:00
    with nothing posted yet (five RANDOM post jobs); at 10:40 the callback
    of a RANDOM post succeeds.  The quota is read again (remainder 4), but
    nothing is cancelled: all twelve earlier jobs are still in the
    registry, the four new post jobs are added to the five old ones, and
    nine RANDOM post jobs are now pending for a remainder of four. *)
Theorem C2_replan_keeps_old_plan :
  let now := make 0 10 40 0 0 in
  let w := initialize_daily_schedule (make 0 8 0 0 0) (idle_world false) in
  let w' := post_callback "RANDOM" now w in
  calculate_remaining_posts w now = 5
  /\ calculate_remaining_posts w' now = 4
  /\ List.length (filter is_random_post (jobs w)) = 5%nat
  /\ firstn (List.length (jobs w)) (jobs w') = jobs w
  /\ List.length (filter is_random_post (jobs w')) = 9%nat.
Proof. vm_compute. repeat split. Qed.

(** * Further properties of the code *)

(** ** The persistence collaborator *)

Lemma filter_length_le {A : Type} (f : A -> bool) (l : list A) :
  (List.length (filter f l) <= List.length l)%nat.
Proof.
  induction l as [|x l IH]; simpl; [lia|]. destruct (f x); simpl; lia.
Qed.

Lemma count_by_type_within_total_facts (d : database) (now : datetime)
    (post_type : string) :
  0 <= get_today_posts_count d now (Some post_type)
       <= get_today_posts_count d now None.
Proof.
  unfold get_today_posts_count.
  destruct (db_raises d); [lia|].
  destruct (String.eqb post_type ""); [lia|].
  pose proof (filter_length_le
                (fun r => String.eqb (row_post_type r) post_type)
                (filter (posted_today now) (db_posts d))).
  lia.
Qed.

(** Whatever the type asked for, the count of today's posts of one type is
    between 0 and the count of all of today's posts. *)
Theorem count_by_type_within_total (d : database) (now : datetime)
    (post_type : string) :
  0 <= get_today_posts_count d now (Some post_type)
       <= get_today_posts_count d now None.
Proof. exact (count_by_type_within_total_facts d now post_type). Qed.

Lemma enum_member_In (members : list string) (value : string) :
  enum_member members value = true <-> In value members.
Proof.
  unfold enum_member. rewrite existsb_exists. split.
  - intros (x & Hx & E). apply String.eqb_eq in E. now subst.
  - intros H. exists value. split; [exact H | apply String.eqb_refl].
Qed.

(** The stored time is a whole second, at most half a second away. *)
Lemma DATETIME_whole (t : datetime) : microsecond (DATETIME t) = 0.
Proof. unfold microsecond, DATETIME. apply Z.mod_mul. discriminate. Qed.

Lemma DATETIME_near (t : datetime) :
  t - us_per_second / 2 < DATETIME t <= t + us_per_second / 2.
Proof.
  unfold DATETIME, us_per_second.
  change (1000000 / 2) with 500000.
  pose proof (Z.div_mod (t + 500000) 1000000 ltac:(discriminate)).
  pose proof (Z.mod_pos_bound (t + 500000) 1000000 eq_refl).
  lia.
Qed.

(** The stored time is dated today except in the last half second of a
    day, which is rounded up to midnight. *)
Lemma DATETIME_today (now : datetime) :
  now < make (ordinal now) 23 59 59 500000
  <-> ordinal (DATETIME now) = ordinal now.
Proof.
  unfold DATETIME, make, ordinal, us_per_day, us_per_hour, us_per_minute,
    us_per_second.
  change (1000000 / 2) with 500000.
  change (24 * (60 * (60 * 1000000))) with 86400000000.
  change (60 * (60 * 1000000)) with 3600000000.
  change (60 * 1000000) with 60000000.
  pose proof (Z.div_mod (now + 500000) 1000000 ltac:(discriminate)) as Hq.
  pose proof (Z.mod_pos_bound (now + 500000) 1000000 eq_refl) as Hr.
  pose proof (Z.div_mod now 86400000000 ltac:(discriminate)) as Ho.
  pose proof (Z.mod_pos_bound now 86400000000 eq_refl) as Hr2.
  split; intros H.
  - symmetry. apply (Z.div_unique _ _ _
      ((now + 500000) / 1000000 * 1000000 - 86400000000 * (now / 86400000000)));
      [left|]; lia.
  - pose proof (Z.div_mod ((now + 500000) / 1000000 * 1000000) 86400000000
                  ltac:(discriminate)) as Hs.
    pose proof (Z.mod_pos_bound ((now + 500000) / 1000000 * 1000000)
                  86400000000 eq_refl) as Hr3.
    rewrite H in Hs. lia.
Qed.

Lemma log_post_stored (d : database) (now : datetime)
    (post_type status : string) :
  db_raises d = false ->
  In post_type post_type_enum -> In status status_enum ->
  log_post d now post_type status
  = {| db_raises := false;
       db_posts := db_posts d ++
         [ {| row_post_type := post_type; row_timestamp := DATETIME now;
              row_status := status |} ] |}.
Proof.
  intros Hdb Hty Hst. unfold log_post. rewrite Hdb.
  apply enum_member_In in Hty, Hst. now rewrite Hty, Hst.
Qed.

Lemma count_after_log (d : database) (now : datetime)
    (post_type status ty : string) :
  db_raises d = false -> ty <> ""%string ->
  get_today_posts_count (log_post d now post_type status) now (Some ty)
  = get_today_posts_count d now (Some ty)
    + (if enum_member post_type_enum post_type
          && enum_member status_enum status
          && (ordinal (DATETIME now) =? ordinal now)
          && String.eqb post_type ty
       then 1 else 0).
Proof.
  intros Hdb Hty. unfold log_post, get_today_posts_count. rewrite Hdb.
  destruct (enum_member post_type_enum post_type
            && enum_member status_enum status); cbn [andb];
    [|rewrite Hdb; lia].
  cbn [db_raises db_posts].
  apply String.eqb_neq in Hty. rewrite Hty.
  rewrite !filter_app, !length_app. cbn [filter].
  unfold posted_today at 2. cbn [row_timestamp].
  destruct (ordinal (DATETIME now) =? ordinal now); cbn [andb filter];
    [|simpl; lia].
  cbn [row_post_type].
  destruct (String.eqb post_type ty); simpl; lia.
Qed.

Lemma total_after_log (d : database) (now : datetime)
    (post_type status : string) :
  db_raises d = false ->
  In post_type post_type_enum -> In status status_enum ->
  now < make (ordinal now) 23 59 59 500000 ->
  get_today_posts_count (log_post d now post_type status) now None
  = get_today_posts_count d now None + 1.
Proof.
  intros Hdb Hty Hst Hnow.
  rewrite log_post_stored by assumption.
  unfold get_today_posts_count. rewrite Hdb. cbn [db_raises db_posts].
  rewrite filter_app, length_app. cbn [filter].
  unfold posted_today at 2. cbn [row_timestamp].
  apply DATETIME_today in Hnow. rewrite Hnow, Z.eqb_refl. simpl. lia.
Qed.

(** With a working database, logging a post attempt of a declared type
    and status raises today's count of that type and today's total by
    exactly one, whatever the status logged (a FAILURE row counts like a
    SUCCESS row), and leaves the count of every other type as it was.  The
    row is dated by its stored, rounded time: the last half second of a day
    is left out. *)
Theorem log_post_then_count (d : database) (now : datetime)
    (post_type status : string) :
  db_raises d = false ->
  In post_type post_type_enum -> In status status_enum ->
  now < make (ordinal now) 23 59 59 500000 ->
  get_today_posts_count (log_post d now post_type status) now
    (Some post_type)
  = get_today_posts_count d now (Some post_type) + 1
  /\ get_today_posts_count (log_post d now post_type status) now None
     = get_today_posts_count d now None + 1
  /\ forall other, other <> post_type -> other <> ""%string ->
       get_today_posts_count (log_post d now post_type status) now
         (Some other)
       = get_today_posts_count d now (Some other).
Proof.
  intros Hdb Hty Hst Hnow.
  assert (Hne : post_type <> ""%string).
  { intros ->. simpl in Hty. intuition discriminate. }
  pose proof Hty as Hty'. pose proof Hst as Hst'.
  apply enum_member_In in Hty', Hst'.
  pose proof Hnow as Hday. apply DATETIME_today in Hday.
  split; [|split].
  - rewrite count_after_log by assumption.
    now rewrite Hty', Hst', Hday, Z.eqb_refl, String.eqb_refl.
  - now apply total_after_log.
  - intros other Hne' Hother.
    rewrite count_after_log by assumption.
    destruct (String.eqb_spec post_type other); [congruence|].
    rewrite !andb_false_r. lia.
Qed.

Lemma log_post_then_count_witness :
  get_today_posts_count
    (log_post {| db_raises := false; db_posts := [] |} (make 0 9 0 0 0)
       "RANDOM" "FAILURE")
    (make 0 9 0 0 0) (Some "RANDOM"%string) = 0 + 1.
Proof.
  apply (log_post_then_count {| db_raises := false; db_posts := [] |}
           (make 0 9 0 0 0) "RANDOM" "FAILURE");
    [reflexivity | simpl; auto | simpl; auto | vm_compute; reflexivity].
Defined.

Lemma latest_spec (ts : list datetime) :
  match latest ts with
  | None => ts = []
  | Some m => In m ts /\ Forall (fun t => t <= m) ts
  end.
Proof.
  induction ts as [|t rest IH]; simpl; [reflexivity|].
  destruct (latest rest) as [m|].
  - destruct IH as [Hin Hall]. split.
    + destruct (Z.max_spec t m) as [[_ ->]|[_ ->]]; auto.
    + constructor; [lia|].
      eapply Forall_impl; [|exact Hall]. intros a Ha. cbv beta in Ha. lia.
  - subst rest. split; [now left|]. constructor; [lia | constructor].
Qed.

Lemma get_last_post_time_latest_facts (d : database) (now : datetime) :
  match get_last_post_time d now with
  | None => db_raises d = true \/ get_today_posts_count d now None = 0
  | Some t =>
      db_raises d = false
      /\ (exists r, In r (db_posts d) /\ posted_today now r = true
                    /\ row_timestamp r = t)
      /\ (forall r, In r (db_posts d) -> posted_today now r = true ->
           row_timestamp r <= t)
  end.
Proof.
  unfold get_last_post_time, get_today_posts_count.
  destruct (db_raises d); [now left|].
  pose proof (latest_spec
                (map row_timestamp (filter (posted_today now) (db_posts d))))
    as H.
  destruct (latest _) as [t|].
  - destruct H as [Hin Hall]. split; [reflexivity|]. split.
    + apply in_map_iff in Hin. destruct Hin as (r & Er & Hr).
      apply filter_In in Hr. exists r. tauto.
    + intros r Hr Ht. rewrite Forall_forall in Hall. apply Hall.
      apply in_map. apply filter_In. auto.
  - right. apply map_eq_nil in H. rewrite H. reflexivity.
Qed.

(** [get_last_post_time] answers nothing exactly when the query fails or
    no post was logged today; otherwise it answers the timestamp of one of
    today's rows, and no row of today is later. *)
Theorem get_last_post_time_latest (d : database) (now : datetime) :
  match get_last_post_time d now with
  | None => db_raises d = true \/ get_today_posts_count d now None = 0
  | Some t =>
      db_raises d = false
      /\ (exists r, In r (db_posts d) /\ posted_today now r = true
                    /\ row_timestamp r = t)
      /\ (forall r, In r (db_posts d) -> posted_today now r = true ->
           row_timestamp r <= t)
  end.
Proof. exact (get_last_post_time_latest_facts d now). Qed.

(** After a post of a declared type and status is logged at [now] on a
    working database, [get_last_post_time] answers a time later than half
    a second before [now]: the stored time of the new row, which is [now]
    rounded to the nearest whole second, unless a row of today is later
    than that.  The last half second of a day, which is stored under the
    next date, is left out. *)
Theorem log_post_then_last_post_time (d : database) (now : datetime)
    (post_type status : string) :
  db_raises d = false ->
  In post_type post_type_enum -> In status status_enum ->
  now < make (ordinal now) 23 59 59 500000 ->
  exists t,
    get_last_post_time (log_post d now post_type status) now = Some t
    /\ DATETIME now <= t
    /\ now - us_per_second / 2 < t
    /\ ((forall r, In r (db_posts d) -> posted_today now r = true ->
          row_timestamp r <= DATETIME now) ->
        t = DATETIME now /\ microsecond t = 0
        /\ t <= now + us_per_second / 2).
Proof.
  intros Hdb Hty Hst Hnow.
  pose proof (get_last_post_time_latest_facts
                (log_post d now post_type status) now) as H.
  pose proof (log_post_stored d now post_type status Hdb Hty Hst) as Hlog.
  set (row := {| row_post_type := post_type; row_timestamp := DATETIME now;
                 row_status := status |}) in *.
  assert (Hposts : db_posts (log_post d now post_type status)
                   = db_posts d ++ [row]) by now rewrite Hlog.
  assert (Hraises : db_raises (log_post d now post_type status) = false)
    by now rewrite Hlog.
  assert (Htoday : posted_today now row = true).
  { unfold posted_today, row. cbn [row_timestamp].
    apply DATETIME_today in Hnow. rewrite Hnow. apply Z.eqb_refl. }
  pose proof (DATETIME_near now) as Hnear.
  destruct (get_last_post_time _ now) as [t|].
  - destruct H as (_ & (r & Hr & Hrtoday & Et) & Hmax).
    assert (Hge : DATETIME now <= t).
    { apply (Hmax row); [|exact Htoday].
      rewrite Hposts. apply in_or_app. right. now left. }
    exists t. split; [reflexivity|]. split; [exact Hge|].
    split; [lia|].
    intros Hold.
    assert (E : t = DATETIME now).
    { rewrite Hposts in Hr. apply in_app_or in Hr.
      destruct Hr as [Hr|[Er|[]]].
      - specialize (Hold r Hr Hrtoday). lia.
      - subst r. symmetry. exact Et. }
    rewrite E. split; [reflexivity|]. split; [apply DATETIME_whole | lia].
  - exfalso. destruct H as [H|H]; [congruence|].
    unfold get_today_posts_count in H. rewrite Hraises, Hposts in H.
    rewrite filter_app, length_app in H. cbn [filter] in H.
    rewrite Htoday in H. simpl in H. lia.
Qed.

Lemma log_post_then_last_post_time_witness :
  exists t,
    get_last_post_time
      (log_post {| db_raises := false; db_posts := [] |}
         (make 0 9 0 0 400000) "TEST" "SUCCESS") (make 0 9 0 0 400000)
    = Some t
    /\ DATETIME (make 0 9 0 0 400000) <= t
    /\ make 0 9 0 0 400000 - us_per_second / 2 < t
    /\ ((forall r, In r [] -> posted_today (make 0 9 0 0 400000) r = true ->
          row_timestamp r <= DATETIME (make 0 9 0 0 400000)) ->
        t = DATETIME (make 0 9 0 0 400000) /\ microsecond t = 0
        /\ t <= make 0 9 0 0 400000 + us_per_second / 2).
Proof.
  apply (log_post_then_last_post_time
           {| db_raises := false; db_posts := [] |} (make 0 9 0 0 400000)
           "TEST" "SUCCESS");
    [reflexivity | simpl; auto | simpl; auto | vm_compute; reflexivity].
Defined.

(** ** The scheduler: window, planning and initialisation *)

Lemma time_remaining_delta (now : datetime) :
  0 <= make (ordinal now) 23 59 59 999999 - now < us_per_day
  /\ (make (ordinal now) 23 59 59 999999 - now = 0
      <-> now mod us_per_day = us_per_day - 1).
Proof.
  pose proof (ordinal_bounds now) as Hb.
  assert (Hmod : now mod us_per_day = now - ordinal now * us_per_day).
  { unfold ordinal. pose proof (Z.div_mod now us_per_day ltac:(discriminate)).
    lia. }
  rewrite Hmod. unfold make. clock_lia.
Qed.

Lemma hours_between_scaled (a b : datetime) :
  (hours_between a b * 3600000000 == inject_Z (a - b))%Q.
Proof.
  unfold hours_between.
  change (inject_Z us_per_second) with 1000000%Q. field.
Qed.

Lemma time_remaining_today_bounds_facts (now : datetime) :
  (0 <= calculate_time_remaining_today now)%Q
  /\ (calculate_time_remaining_today now < 24)%Q
  /\ ((calculate_time_remaining_today now == 0)%Q
      <-> now mod us_per_day = us_per_day - 1).
Proof.
  unfold calculate_time_remaining_today.
  destruct (time_remaining_delta now) as [[Hlo Hhi] Hz].
  pose proof (hours_between_scaled (make (ordinal now) 23 59 59 999999) now)
    as Hs.
  set (h := hours_between (make (ordinal now) 23 59 59 999999) now) in *.
  set (delta := make (ordinal now) 23 59 59 999999 - now) in *.
  assert (H0 : (0 <= inject_Z delta)%Q)
    by (change 0%Q with (inject_Z 0); rewrite <- Zle_Qle; exact Hlo).
  assert (H1 : (inject_Z delta < 86400000000)%Q)
    by (change 86400000000%Q with (inject_Z us_per_day);
        rewrite <- Zlt_Qlt; exact Hhi).
  split; [lra|]. split; [lra|].
  rewrite <- Hz. split.
  - intros E. apply inject_Z_injective.
    change (inject_Z 0) with 0%Q. lra.
  - intros E. rewrite E in Hs. change (inject_Z 0) with 0%Q in Hs. lra.
Qed.

(** [calculate_time_remaining_today] answers a number of hours in
    [[0, 24)]; it is 0 only at the last microsecond of the day
    (23:59:59.999999), so at every other instant the scheduler finds time
    remaining. *)
Theorem time_remaining_today_bounds (now : datetime) :
  (0 <= calculate_time_remaining_today now)%Q
  /\ (calculate_time_remaining_today now < 24)%Q
  /\ ((calculate_time_remaining_today now == 0)%Q
      <-> now mod us_per_day = us_per_day - 1).
Proof. exact (time_remaining_today_bounds_facts now). Qed.

Lemma time_remaining_positive (now : datetime) :
  now mod us_per_day <> us_per_day - 1 ->
  (0 < calculate_time_remaining_today now)%Q.
Proof.
  intros H. destruct (time_remaining_today_bounds_facts now) as (H0 & _ & Hz).
  destruct (Qlt_le_dec 0 (calculate_time_remaining_today now)) as [|Hle];
    [assumption|].
  exfalso. apply H, Hz. lra.
Qed.

Lemma remaining_posts_bounds (w : world) (now : datetime) :
  0 <= calculate_remaining_posts w now <= RANDOM_POSTS_PER_DAY.
Proof.
  unfold calculate_remaining_posts, RANDOM_POSTS_PER_DAY.
  pose proof (count_by_type_within_total_facts (database_manager w) now "RANDOM").
  lia.
Qed.

Lemma schedule_remaining_posts_frame (now : datetime) (w : world) :
  database_manager (schedule_remaining_posts now w) = database_manager w
  /\ publish (schedule_remaining_posts now w) = publish w
  /\ notified (schedule_remaining_posts now w) = notified w.
Proof.
  unfold schedule_remaining_posts.
  destruct (_ =? 0); [auto|]. destruct (Qle_bool _ 0); [auto|].
  destruct (distribute_posts_intelligently _ _ _ _). auto.
Qed.

Lemma schedule_remaining_posts_jobs (now : datetime) (w : world) :
  (0 < calculate_time_remaining_today now)%Q ->
  exists added,
    jobs (schedule_remaining_posts now w) = jobs w ++ added
    /\ List.length added
       = (2 * Z.to_nat (calculate_remaining_posts w now))%nat
    /\ List.length (filter is_post added)
       = Z.to_nat (calculate_remaining_posts w now).
Proof.
  intros Hh.
  pose proof (remaining_posts_bounds w now) as Hb.
  destruct (Z.eq_dec (calculate_remaining_posts w now) 0) as [E|E].
  - exists []. unfold schedule_remaining_posts. rewrite E. simpl.
    now rewrite app_nil_r.
  - destruct (schedule_remaining_posts_planned now w) as [Hj _];
      [lia | exact Hh |].
    eexists. split; [exact Hj|].
    rewrite planned_jobs_length, planned_jobs_posts.
    rewrite distribute_length by (try lia; exact Hh). auto.
Qed.

(** While time remains today, [schedule_remaining_posts] appends exactly
    two jobs per RANDOM post still owed (a post job and its notice), never
    more than five pairs, keeps every job that was already registered, and
    touches neither the database nor the notification log; once five
    RANDOM posts are logged today it appends nothing. *)
Theorem schedule_remaining_posts_installs (now : datetime) (w : world) :
  (0 < calculate_time_remaining_today now)%Q ->
  let remaining := calculate_remaining_posts w now in
  let w' := schedule_remaining_posts now w in
  0 <= remaining <= 5
  /\ List.length (jobs w')
     = (List.length (jobs w) + 2 * Z.to_nat remaining)%nat
  /\ List.length (filter is_post (jobs w'))
     = (List.length (filter is_post (jobs w)) + Z.to_nat remaining)%nat
  /\ firstn (List.length (jobs w)) (jobs w') = jobs w
  /\ database_manager w' = database_manager w
  /\ notified w' = notified w
  /\ (5 <= get_today_posts_count (database_manager w) now
             (Some "RANDOM"%string) -> jobs w' = jobs w).
Proof.
  intros Hh remaining w'. subst remaining w'.
  destruct (schedule_remaining_posts_jobs now w Hh)
    as (added & Hj & Hlen & Hposts).
  destruct (schedule_remaining_posts_frame now w) as (Hd & _ & Hn).
  split; [apply remaining_posts_bounds|].
  rewrite Hj, length_app, filter_app, length_app, Hlen, Hposts.
  repeat split; try reflexivity; try assumption.
  - rewrite firstn_app, Nat.sub_diag, firstn_all. simpl.
    now rewrite app_nil_r.
  - intros Hfull.
    assert (E : calculate_remaining_posts w now = 0)
      by (unfold calculate_remaining_posts, RANDOM_POSTS_PER_DAY; lia).
    rewrite E in Hlen. simpl in Hlen.
    destruct added; [now rewrite app_nil_r | discriminate].
Qed.

Lemma schedule_remaining_posts_installs_witness :
  List.length (jobs (schedule_remaining_posts (make 0 8 0 0 0)
                       (idle_world false)))
  = (List.length (jobs (idle_world false))
     + 2 * Z.to_nat (calculate_remaining_posts (idle_world false)
                       (make 0 8 0 0 0)))%nat.
Proof.
  apply (schedule_remaining_posts_installs (make 0 8 0 0 0)
           (idle_world false)).
  reflexivity.
Defined.

(** Jobs registered before [initialize_daily_schedule] never survive it:
    the registry it leaves does not depend on the one it found.  It holds
    the Fixed job and its notice first and, while time remains today, two
    jobs per RANDOM post still owed after them. *)
Theorem initialize_daily_schedule_fresh (now : datetime) (w : world)
    (stale : list Job) :
  (0 < calculate_time_remaining_today now)%Q ->
  jobs (initialize_daily_schedule now (set_jobs stale w))
  = jobs (initialize_daily_schedule now w)
  /\ List.length (jobs (initialize_daily_schedule now w))
     = (2 + 2 * Z.to_nat (calculate_remaining_posts w now))%nat
  /\ map tags (firstn 2 (jobs (initialize_daily_schedule now w)))
     = [["daily_post"%string]; ["notify_daily_post"%string]].
Proof.
  intros Hh. split; [reflexivity|].
  unfold initialize_daily_schedule.
  set (w1 := schedule_daily_post now (clear_all_schedules w)).
  destruct (schedule_remaining_posts_jobs now w1 Hh)
    as (added & Hj & Hlen & _).
  rewrite Hj. split.
  - rewrite length_app, Hlen. reflexivity.
  - reflexivity.
Qed.

Lemma initialize_daily_schedule_fresh_witness :
  List.length (jobs (initialize_daily_schedule (make 0 8 0 0 0)
                       (idle_world false)))
  = (2 + 2 * Z.to_nat (calculate_remaining_posts (idle_world false)
                         (make 0 8 0 0 0)))%nat.
Proof.
  apply (initialize_daily_schedule_fresh (make 0 8 0 0 0)
           (idle_world false) []).
  reflexivity.
Defined.

(** ** The bot: publishing and the dispatch callback *)

Lemma make_post_frame (post_type : string) (now : datetime) (w : world) :
  fst (make_post post_type now w) = publish w O
  /\ jobs (snd (make_post post_type now w)) = jobs w
  /\ notified (snd (make_post post_type now w)) = notified w
  /\ rand (snd (make_post post_type now w)) = rand w
  /\ database_manager (snd (make_post post_type now w))
     = log_post (database_manager w) now post_type
         (if publish w O then "SUCCESS" else "FAILURE")%string.
Proof. unfold make_post. simpl. repeat split; reflexivity. Qed.

(** [make_post] charges the daily quota whether or not publishing
    succeeded: with a working database, one attempt at a RANDOM post
    lowers the number of RANDOM posts still owed by one (down to 0), and
    an attempt of any other type leaves it as it was.  The row of the
    attempt is dated by its stored, rounded time: for a RANDOM post the
    last half second of a day is left out. *)
Theorem make_post_charges_quota (post_type : string) (now : datetime)
    (w : world) :
  db_raises (database_manager w) = false ->
  let w' := snd (make_post post_type now w) in
  (post_type = "RANDOM"%string ->
   now < make (ordinal now) 23 59 59 500000 ->
   calculate_remaining_posts w' now
   = Z.max 0 (calculate_remaining_posts w now - 1))
  /\ (post_type <> "RANDOM"%string ->
      calculate_remaining_posts w' now = calculate_remaining_posts w now).
Proof.
  intros Hdb w'. subst w'.
  destruct (make_post_frame post_type now w) as (_ & _ & _ & _ & Hd).
  unfold calculate_remaining_posts. rewrite Hd.
  rewrite count_after_log by (assumption || discriminate).
  pose proof (count_by_type_within_total_facts (database_manager w) now "RANDOM").
  unfold RANDOM_POSTS_PER_DAY.
  split; intros Hty.
  - intros Hnow. subst post_type. apply DATETIME_today in Hnow.
    rewrite Hnow, Z.eqb_refl, String.eqb_refl.
    destruct (publish w O); cbn [enum_member existsb post_type_enum
      status_enum String.eqb Ascii.eqb Bool.eqb andb orb]; lia.
  - apply String.eqb_neq in Hty. rewrite Hty, andb_false_r. f_equal. lia.
Qed.

Lemma make_post_charges_quota_witness :
  calculate_remaining_posts
    (snd (make_post "RANDOM" (make 0 9 0 0 0)
            (set_publish (fun _ => false) (idle_world false))))
    (make 0 9 0 0 0)
  = Z.max 0
      (calculate_remaining_posts
         (set_publish (fun _ => false) (idle_world false))
         (make 0 9 0 0 0) - 1).
Proof.
  apply (make_post_charges_quota "RANDOM" (make 0 9 0 0 0)
           (set_publish (fun _ => false) (idle_world false)));
    [reflexivity | reflexivity | vm_compute; reflexivity].
Defined.

(** What [post_callback] does to the engine state, while time remains
    today: it always logs the attempt and sends exactly one "Post Result"
    notification; it keeps every registered job; and it appends jobs only
    after a successful RANDOM post, two per RANDOM post owed once the
    attempt is counted.  A failed post and a post of any other type leave
    the registry exactly as it was. *)
Theorem post_callback_effect (post_type : string) (now : datetime)
    (w : world) :
  (0 < calculate_time_remaining_today now)%Q ->
  let logged := snd (make_post post_type now w) in
  let w' := post_callback post_type now w in
  database_manager w' = database_manager logged
  /\ (exists message,
        notified w' = notified w ++ [("Post Result"%string, message)])
  /\ firstn (List.length (jobs w)) (jobs w') = jobs w
  /\ (publish w O = true -> post_type = "RANDOM"%string ->
      List.length (jobs w')
      = (List.length (jobs w)
         + 2 * Z.to_nat (calculate_remaining_posts logged now))%nat)
  /\ (publish w O = false \/ post_type <> "RANDOM"%string ->
      jobs w' = jobs w).
Proof.
  intros Hh logged w'. subst logged w'.
  unfold post_callback.
  destruct (make_post post_type now w) as [success w1] eqn:Em.
  pose proof (make_post_frame post_type now w) as (Hs & Hj & Hn & _ & Hd).
  rewrite Em in Hs, Hj, Hn, Hd. cbn [fst snd] in *.
  match goal with
  | |- context [notify ?t ?m w1] => set (w2 := notify t m w1)
  end.
  assert (Hw2 : jobs w2 = jobs w /\ database_manager w2 = database_manager w1
                /\ exists message,
                     notified w2
                     = notified w ++ [("Post Result"%string, message)]).
  { subst w2. cbn [jobs database_manager notified notify].
    rewrite Hj, Hn. repeat split. eexists. reflexivity. }
  destruct Hw2 as (Hj2 & Hd2 & Hn2).
  destruct (success && String.eqb post_type "RANDOM") eqn:Eb.
  - apply andb_prop in Eb. destruct Eb as [-> Ety].
    apply String.eqb_eq in Ety.
    destruct (schedule_remaining_posts_jobs now w2 Hh)
      as (added & Ha & Hlen & _).
    destruct (schedule_remaining_posts_frame now w2) as (Hd3 & _ & Hn3).
    rewrite Hd3, Hn3, Ha, Hj2, Hd2.
    repeat split; try assumption.
    + rewrite firstn_app, Nat.sub_diag, firstn_all. simpl.
      now rewrite app_nil_r.
    + intros _ _. rewrite length_app, Hlen.
      unfold calculate_remaining_posts. rewrite Hd2. reflexivity.
    + intros [Hf|Hne]; [congruence | contradiction].
  - rewrite Hj2, Hd2. repeat split; try assumption.
    + apply firstn_all.
    + intros Hp Hty. subst post_type. rewrite Hs, Hp in Eb.
      discriminate.
Qed.

Lemma post_callback_effect_witness :
  jobs (post_callback "SCHEDULED" (make 0 12 0 0 0)
          (initialize_daily_schedule (make 0 8 0 0 0) (idle_world false)))
  = jobs (initialize_daily_schedule (make 0 8 0 0 0) (idle_world false)).
Proof.
  apply (post_callback_effect "SCHEDULED" (make 0 12 0 0 0)
           (initialize_daily_schedule (make 0 8 0 0 0) (idle_world false)));
    [reflexivity | right; discriminate].
Defined.

(** ** The dispatch tick *)

Lemma new_job_settled (now : datetime) (c : time) (f : job_func)
    (tag : string) :
  valid_time c -> settled now (new_job now c f tag).
Proof.
  intros Hv. split; [|exact Hv].
  destruct (schedule_next_run_spec now c Hv) as (Hr & _). apply Hr.
Qed.

Lemma planned_jobs_settled (now : datetime) (post_times : list datetime) :
  forall i, Forall (settled now) (planned_jobs now i post_times).
Proof.
  induction post_times as [|t rest IH]; intros i; simpl; [constructor|].
  constructor; [apply new_job_settled, strftime_HM_valid|].
  constructor; [apply new_job_settled, strftime_HM_valid | apply IH].
Qed.

Lemma schedule_remaining_posts_settled (now : datetime) (w : world) :
  exists added,
    jobs (schedule_remaining_posts now w) = jobs w ++ added
    /\ Forall (settled now) added.
Proof.
  unfold schedule_remaining_posts.
  destruct (calculate_remaining_posts w now =? 0);
    [exists []; split; [now rewrite app_nil_r | constructor]|].
  destruct (Qle_bool _ 0);
    [exists []; split; [now rewrite app_nil_r | constructor]|].
  destruct (distribute_posts_intelligently _ _ _ _) as [ts g'].
  simpl. rewrite install_random_posts_planned.
  eexists. split; [reflexivity | apply planned_jobs_settled].
Qed.

Lemma call_settled (f : job_func) (now : datetime) (w : world) :
  exists added,
    jobs (call f now w) = jobs w ++ added /\ Forall (settled now) added.
Proof.
  destruct f as [post_type|title message]; simpl.
  - unfold post_callback, make_post.
    destruct (publish w O && String.eqb post_type "RANDOM").
    + destruct (publish w O);
        match goal with
        | |- context [schedule_remaining_posts now ?w'] =>
            destruct (schedule_remaining_posts_settled now w')
              as (a & Ha & Hs);
            exists a; rewrite Ha; split; [reflexivity | exact Hs]
        end.
    + exists []. rewrite app_nil_r.
      split; [now destruct (publish w O) | constructor].
  - exists []. rewrite app_nil_r. split; [reflexivity | constructor].
Qed.

Lemma run_jobs_settle (now : datetime) (idxs : list nat) :
  forall w,
  (forall k j, nth_error (jobs w) k = Some j ->
     valid_time (at_time j) /\ (now < next_run j \/ In k idxs)) ->
  Forall (settled now)
    (jobs (fold_left (fun w i => run_job now i w) idxs w)).
Proof.
  induction idxs as [|a rest IH]; intros w Hinv; simpl.
  - apply Forall_forall. intros j Hj. apply In_nth_error in Hj.
    destruct Hj as [k Hk]. destruct (Hinv k j Hk) as [Hv [Ha|[]]].
    split; assumption.
  - apply IH. intros k j1 Hk. unfold run_job in Hk.
    destruct (nth_error (jobs w) a) as [ja|] eqn:Ea.
    + destruct (call_settled (func ja) now w) as (added & Hadd & Hs).
      cbn [jobs set_jobs] in Hk. rewrite set_nth_nth, Hadd in Hk.
      destruct (Hinv a ja Ea) as [Hva _].
      destruct (Nat.eqb_spec k a) as [->|Hne].
      * rewrite nth_error_app1 in Hk
          by (apply nth_error_Some; congruence).
        rewrite Ea in Hk. injection Hk as <-.
        destruct (schedule_next_run_spec now (at_time ja) Hva) as (Hr & _).
        split; [exact Hva|]. left. apply Hr.
      * destruct (Nat.lt_ge_cases k (List.length (jobs w))) as [Hlt|Hge].
        -- rewrite nth_error_app1 in Hk by exact Hlt.
           destruct (Hinv k j1 Hk) as [Hv [Harmed|[E|Hin]]]; auto.
           congruence.
        -- rewrite nth_error_app2 in Hk by exact Hge.
           apply nth_error_In in Hk. rewrite Forall_forall in Hs.
           destruct (Hs j1 Hk) as [Harmed Hv]. auto.
    + destruct (Hinv k j1 Hk) as [Hv [Harmed|[E|Hin]]]; auto.
      congruence.
Qed.

Lemma runnable_jobs_none (now : datetime) (js : list Job) :
  Forall (settled now) js -> runnable_jobs now js = [].
Proof.
  intros Hall. destruct (runnable_jobs now js) as [|i rest] eqn:E;
    [reflexivity|].
  assert (Hin : In i (runnable_jobs now js)) by (rewrite E; now left).
  apply runnable_jobs_In in Hin. destruct Hin as (j & Hj & Hs).
  apply nth_error_In in Hj. rewrite Forall_forall in Hall.
  destruct (Hall j Hj) as [Harmed _].
  unfold should_run in Hs. lia.
Qed.

(** On a registry whose jobs all have printable clock times (hour below
    24, minute below 60), one call of [run_pending] leaves no job due:
    every job of the registry, the ones the callbacks added included, is
    armed for a later instant.  A second call at the same instant
    therefore changes nothing. *)
Theorem run_pending_settles (now : datetime) (w : world) :
  (forall j, In j (jobs w) -> valid_time (at_time j)) ->
  Forall (fun j => now < next_run j) (jobs (run_pending now w))
  /\ run_pending now (run_pending now w) = run_pending now w.
Proof.
  intros Hv.
  assert (Hs : Forall (settled now) (jobs (run_pending now w))).
  { unfold run_pending. apply run_jobs_settle. intros k j Hk.
    split; [apply Hv; eapply nth_error_In; eauto|].
    destruct (should_run now j) eqn:Es.
    - right. apply runnable_jobs_In. eauto.
    - left. unfold should_run in Es. lia. }
  split.
  - eapply Forall_impl; [|exact Hs]. intros j [H _]. exact H.
  - unfold run_pending at 1. now rewrite (runnable_jobs_none now _ Hs).
Qed.

Lemma run_pending_settles_witness :
  run_pending (make 0 12 0 0 0)
    (run_pending (make 0 12 0 0 0)
       (schedule_daily_post (make 0 8 0 0 0) (idle_world false)))
  = run_pending (make 0 12 0 0 0)
      (schedule_daily_post (make 0 8 0 0 0) (idle_world false)).
Proof.
  apply (run_pending_settles (make 0 12 0 0 0)
           (schedule_daily_post (make 0 8 0 0 0) (idle_world false))).
  intros j [<-|[<-|[]]].
  - unfold valid_time. cbn [at_time new_job SCHEDULED_POST_TIME time_hour
                             time_minute]. lia.
  - exact (strftime_HM_valid _).
Defined.

(** ** The planner: effective bounds and the end of the day *)

Lemma round_half_even_upper (k : Z) (x : Q) :
  (x <= inject_Z k)%Q -> round_half_even x <= k.
Proof.
  intros H. pose proof (Qfloor_resp_le _ _ H) as Hf.
  rewrite Qfloor_Z in Hf. unfold round_half_even.
  destruct (Qcompare (x - inject_Z (Qfloor x)) (1 # 2)) eqn:Ec.
  - apply Qeq_alt in Ec.
    assert (Hfk : Qfloor x < k).
    { destruct (Z.eq_dec (Qfloor x) k) as [E|E]; [|lia].
      exfalso. rewrite E in Ec. lra. }
    destruct (Z.even _); lia.
  - lia.
  - apply Qgt_alt in Ec.
    assert (Hfk : Qfloor x < k).
    { destruct (Z.eq_dec (Qfloor x) k) as [E|E]; [|lia].
      exfalso. rewrite E in Ec. lra. }
    lia.
Qed.

Lemma timedelta_minutes_upper (x : Q) :
  (x <= 60)%Q -> timedelta_minutes x <= 60 * us_per_minute.
Proof.
  intros H. unfold timedelta_minutes. apply round_half_even_upper.
  rewrite inject_Z_mult.
  apply Qmult_le_compat_r; [exact H | discriminate].
Qed.

Lemma per_slot_shares (num_posts : Z) (minutes : Q) :
  0 < num_posts -> (0 <= minutes)%Q ->
  (0 <= minutes / inject_Z (num_posts + 1))%Q
  /\ (minutes / inject_Z (num_posts + 1) <= minutes / inject_Z num_posts)%Q
  /\ (minutes / inject_Z num_posts <= minutes)%Q.
Proof.
  intros Hn Hm.
  assert (HN : (1 <= inject_Z num_posts)%Q)
    by (change 1%Q with (inject_Z 1); rewrite <- Zle_Qle; lia).
  assert (Hx : (minutes / inject_Z num_posts * inject_Z num_posts
                == minutes)%Q) by (field; lra).
  assert (Hy : (minutes / inject_Z (num_posts + 1)
                * (inject_Z num_posts + 1) == minutes)%Q)
    by (rewrite inject_Z_plus; change (inject_Z 1) with 1%Q; field; lra).
  set (x := (minutes / inject_Z num_posts)%Q) in *.
  set (y := (minutes / inject_Z (num_posts + 1))%Q) in *.
  set (N := inject_Z num_posts) in *.
  assert (H0y : (0 <= y)%Q).
  { destruct (Qlt_le_dec y 0) as [Hneg|]; [|assumption]. nra. }
  assert (H0x : (0 <= x)%Q).
  { destruct (Qlt_le_dec x 0) as [Hneg|]; [|assumption]. nra. }
  repeat split; [assumption | nra | nra].
Qed.

Lemma effective_interval_bounds_facts (num_posts : Z) (hours_remaining : Q) :
  0 < num_posts -> (0 <= hours_remaining)%Q ->
  let minutes_remaining := (hours_remaining * 60)%Q in
  let share := (minutes_remaining / inject_Z (num_posts + 1))%Q in
  let lo := min_interval num_posts hours_remaining in
  let hi := max_interval num_posts hours_remaining in
  (MIN_INTERVAL_MINUTES <= lo)%Q /\ (lo <= hi)%Q
  /\ (hi <= Qmax MAX_INTERVAL_MINUTES lo)%Q
  /\ ((MAX_INTERVAL_MINUTES <= share)%Q -> (lo == share /\ hi == share)%Q)
  /\ ((minutes_remaining / inject_Z num_posts <= MIN_INTERVAL_MINUTES)%Q ->
      (lo == MIN_INTERVAL_MINUTES /\ hi == MIN_INTERVAL_MINUTES)%Q).
Proof.
  intros Hn Hh mr share lo hi.
  assert (Hm : (0 <= mr)%Q) by (unfold mr; lra).
  destruct (per_slot_shares num_posts mr Hn Hm) as (Hs0 & Hs1 & Hs2).
  fold share in Hs0, Hs1.
  unfold lo, hi, max_interval, min_interval. fold mr. fold share.
  unfold MIN_INTERVAL_MINUTES, MAX_INTERVAL_MINUTES in *.
  set (x := (mr / inject_Z num_posts)%Q) in *.
  destruct (Q.max_spec 30 share) as [[H1 E1]|[H1 E1]];
  destruct (Q.min_spec 240 x) as [[H2 E2]|[H2 E2]];
  destruct (Q.max_spec (Qmin 240 x) (Qmax 30 share)) as [[H3 E3]|[H3 E3]];
  destruct (Q.max_spec 240 (Qmax 30 share)) as [[H4 E4]|[H4 E4]];
  repeat split; intros; lra.
Qed.

(** The effective bounds of the planner, for a positive count and a
    non-negative window: the lower bound is at least 30 minutes and the
    upper bound lies between it and max(240, lower bound).  The configured
    maximum of 240 minutes is therefore not a cap: when an even share of
    the window, minutes/(count+1), is 240 or more, both bounds equal that
    share; and when minutes/count is at most 30, both equal 30. *)
Theorem effective_interval_bounds (num_posts : Z) (hours_remaining : Q) :
  0 < num_posts -> (0 <= hours_remaining)%Q ->
  let minutes_remaining := (hours_remaining * 60)%Q in
  let share := (minutes_remaining / inject_Z (num_posts + 1))%Q in
  let lo := min_interval num_posts hours_remaining in
  let hi := max_interval num_posts hours_remaining in
  (MIN_INTERVAL_MINUTES <= lo)%Q /\ (lo <= hi)%Q
  /\ (hi <= Qmax MAX_INTERVAL_MINUTES lo)%Q
  /\ ((MAX_INTERVAL_MINUTES <= share)%Q -> (lo == share /\ hi == share)%Q)
  /\ ((minutes_remaining / inject_Z num_posts <= MIN_INTERVAL_MINUTES)%Q ->
      (lo == MIN_INTERVAL_MINUTES /\ hi == MIN_INTERVAL_MINUTES)%Q).
Proof. exact (effective_interval_bounds_facts num_posts hours_remaining). Qed.

Lemma effective_interval_bounds_witness :
  (min_interval 1 16 == 16 * 60 / inject_Z (1 + 1)
   /\ max_interval 1 16 == 16 * 60 / inject_Z (1 + 1))%Q.
Proof.
  apply (effective_interval_bounds 1 16); [reflexivity | discriminate |].
  discriminate.
Defined.

Lemma day_window_fields (d : Z) (t : datetime) :
  d * us_per_day <= t < d * us_per_day + 23 * us_per_hour ->
  ordinal t = d /\ hour t < 23.
Proof.
  intros H. split.
  - unfold ordinal. symmetry.
    apply (Z.div_unique t us_per_day d (t - d * us_per_day)); clock_lia.
  - unfold hour.
    pose proof (Z.div_mod t us_per_hour ltac:(discriminate)) as Hq.
    pose proof (Z.mod_pos_bound t us_per_hour eq_refl) as Hr.
    set (q := t / us_per_hour) in *. set (r := t mod us_per_hour) in *.
    assert (Hq' : d * 24 <= q < d * 24 + 23) by clock_lia.
    rewrite <- (Z.mod_unique q 24 d (q - d * 24)); lia.
Qed.

Lemma chained_next_day (lo hi : Q) (d : Z) (steps : list slot_step) :
  (MIN_INTERVAL_MINUTES <= lo)%Q -> (lo * 2 <= 60)%Q -> (lo <= hi)%Q ->
  (hi <= 60)%Q ->
  forall (t : datetime) (i : nat) (B : Z),
  chained lo hi t i steps ->
  (d + 1) * us_per_day - 30 * us_per_minute <= t
    < (d + 1) * us_per_day + B ->
  0 <= B ->
  B + 60 * us_per_minute * Z.of_nat (List.length steps)
    <= 23 * us_per_hour ->
  Forall (fun u => ordinal u = d + 1) (map step_slot steps).
Proof.
  intros Hlo H2lo Hhi Hhi60.
  induction steps as [|s rest IH]; intros t i B Hc Ht HB Hlen; simpl;
    [constructor|].
  destruct Hc as (Hs & Hd & Hcmp & Hg & Hrest).
  assert (Hiv : (MIN_INTERVAL_MINUTES <= step_interval s
                 /\ step_interval s <= 60)%Q).
  { apply drawn_from_range in Hd.
    - destruct Hd as [Ha Hb]. split; [lra|].
      destruct i; simpl in Hb; lra.
    - unfold MIN_INTERVAL_MINUTES in Hlo. destruct i; simpl; lra. }
  destruct Hiv as [Hiv30 Hiv60].
  pose proof (timedelta_minutes_lower _ Hiv30) as Htd30.
  pose proof (timedelta_minutes_upper _ Hiv60) as Htd60.
  cbn [List.length] in Hlen. rewrite Nat2Z.inj_succ in Hlen.
  assert (Hcomp : (d + 1) * us_per_day <= step_computed s
                  < (d + 1) * us_per_day + (B + 60 * us_per_minute))
    by (rewrite Hcmp, Hs; clock_lia).
  destruct (day_window_fields (d + 1) (step_computed s)) as [Hord Hhr];
    [clock_lia|].
  assert (Hslot : step_slot s = step_computed s)
    by (destruct Hg as [[_ E]|[Hge _]]; [exact E | lia]).
  constructor; [now rewrite Hslot|].
  apply (IH (step_slot s) (S i) (B + 60 * us_per_minute) Hrest);
    rewrite ?Hslot; clock_lia.
Qed.

(** From 23:30 on, planning runs past midnight: whenever at least one
    RANDOM post is still owed and the clock reads 23:30:00 or later (the
    last microsecond of the day excepted), every slot planned for
    [schedule_remaining_posts] lies on the following calendar day, and the
    hour-23 guard rewrites none of them. *)
Theorem late_planning_crosses_midnight (now : datetime) (w : world) :
  23 * us_per_hour + 30 * us_per_minute <= now mod us_per_day ->
  now mod us_per_day <> us_per_day - 1 ->
  0 < calculate_remaining_posts w now ->
  let plan :=
    fst (distribute_posts_intelligently (calculate_remaining_posts w now)
           (calculate_time_remaining_today now) now (rand w)) in
  List.length plan = Z.to_nat (calculate_remaining_posts w now)
  /\ Forall (fun t => ordinal t = ordinal now + 1) plan.
Proof.
  intros Hlate Hlast Hrem plan. subst plan.
  pose proof (remaining_posts_bounds w now) as Hb.
  unfold RANDOM_POSTS_PER_DAY in Hb.
  pose proof (time_remaining_positive now Hlast) as Hpos.
  set (n := calculate_remaining_posts w now) in *.
  set (h := calculate_time_remaining_today now) in *.
  split; [now apply distribute_length|].
  rewrite distribute_planned by assumption.
  (* fewer than 30 minutes are left *)
  assert (Hmod : now mod us_per_day = now - ordinal now * us_per_day).
  { unfold ordinal.
    pose proof (Z.div_mod now us_per_day ltac:(discriminate)). lia. }
  pose proof (ordinal_bounds now) as Hob.
  assert (Hh : (h * 60 <= 30)%Q).
  { pose proof (hours_between_scaled
                  (make (ordinal now) 23 59 59 999999) now) as Hs.
    fold (calculate_time_remaining_today now) in Hs. fold h in Hs.
    assert (Hd : (inject_Z (make (ordinal now) 23 59 59 999999 - now)
                  <= 1800000000)%Q).
    { change 1800000000%Q with (inject_Z 1800000000).
      rewrite <- Zle_Qle. unfold make. clock_lia. }
    lra. }
  destruct (per_slot_shares n (h * 60) Hrem ltac:(lra)) as (_ & _ & Hshare).
  destruct (effective_interval_bounds_facts n h Hrem ltac:(lra))
    as (Hlo & Hlohi & _ & _ & Hmin).
  cbv zeta in Hmin.
  destruct Hmin as [Elo Ehi];
    [unfold MIN_INTERVAL_MINUTES; lra|].
  unfold MIN_INTERVAL_MINUTES in Elo, Ehi.
  apply Forall_forall. intros t Ht. unfold sorted in Ht.
  apply sorted_by_In in Ht. revert t Ht. apply Forall_forall.
  apply (chained_next_day (min_interval n h) (max_interval n h)
           (ordinal now) _ Hlo ltac:(lra) Hlohi ltac:(lra) now O 0
           (plan_steps_chained n h now (rand w))).
  - rewrite Hmod in Hlate. clock_lia.
  - lia.
  - rewrite plan_steps_length. rewrite Z2Nat.id by lia. clock_lia.
Qed.

Lemma late_planning_crosses_midnight_witness :
  Forall (fun t => ordinal t = ordinal (make 0 23 40 0 0) + 1)
    (fst (distribute_posts_intelligently
            (calculate_remaining_posts (idle_world false)
               (make 0 23 40 0 0))
            (calculate_time_remaining_today (make 0 23 40 0 0))
            (make 0 23 40 0 0) (rand (idle_world false)))).
Proof.
  apply (late_planning_crosses_midnight (make 0 23 40 0 0)
           (idle_world false)); [| |reflexivity].
  - vm_compute. discriminate.
  - vm_compute. discriminate.
Defined.

(** ** Hashtags *)

Lemma hashtag_words_plain (api_name : string) :
  Forall (fun word => contains "#" word = false /\ lower word = word)
    (hashtag_words api_name).
Proof.
  unfold hashtag_words.
  repeat match goal with
         | |- context [String.eqb api_name ?s] =>
             destruct (String.eqb api_name s)
         end;
    repeat constructor.
Qed.

Lemma length_hashtags_plain (content : string) :
  length_hashtags content <> []
  /\ (List.length (length_hashtags content) <= 2)%nat
  /\ Forall (fun word => contains "#" word = false)
       (length_hashtags content).
Proof.
  unfold length_hashtags.
  destruct (_ <? 100)%nat; [|destruct (200 <? _)%nat];
    (split; [discriminate | split; [simpl; lia | repeat constructor]]).
Qed.

Lemma generate_smart_hashtags_shape_facts (content api_name : string) :
  let found :=
    filter (fun word => contains (lower word) (lower content))
      (hashtag_words api_name) in
  let hashtags := generate_smart_hashtags content api_name in
  (1 <= List.length hashtags <= 3)%nat
  /\ Forall (fun tag => contains "#" tag = false) hashtags
  /\ (found <> [] ->
      hashtags = firstn 3 found
      /\ Forall (fun tag => In tag (hashtag_words api_name)
                            /\ contains tag (lower content) = true)
           hashtags)
  /\ (found = [] -> hashtags = length_hashtags content).
Proof.
  intros found hashtags. subst hashtags. unfold generate_smart_hashtags.
  fold found.
  pose proof (hashtag_words_plain api_name) as Hplain.
  destruct (length_hashtags_plain content) as (Hne & Hlen & Hgen).
  assert (Hfound : Forall (fun tag => contains "#" tag = false
                             /\ In tag (hashtag_words api_name)
                             /\ contains tag (lower content) = true)
                     found).
  { apply Forall_forall. intros tag Ht. unfold found in Ht.
    apply filter_In in Ht. destruct Ht as [Hin Hc].
    rewrite Forall_forall in Hplain. destruct (Hplain tag Hin) as [Hp Hl].
    rewrite Hl in Hc. auto. }
  destruct found as [|w1 ws] eqn:Ef.
  - split; [|split; [|split]].
    + rewrite firstn_all2 by lia.
      destruct (length_hashtags content); [congruence | simpl in *; lia].
    + rewrite firstn_all2 by lia. exact Hgen.
    + congruence.
    + intros _. apply firstn_all2. lia.
  - assert (Hsub : forall tag, In tag (firstn 3 (w1 :: ws)) ->
                     In tag (w1 :: ws))
      by (intros tag Ht; rewrite <- (firstn_skipn 3 (w1 :: ws));
          apply in_or_app; now left).
    rewrite Forall_forall in Hfound.
    split; [|split; [|split]].
    + rewrite length_firstn. simpl List.length. lia.
    + apply Forall_forall. intros tag Ht. apply Hfound, Hsub, Ht.
    + intros _. split; [reflexivity|].
      apply Forall_forall. intros tag Ht. apply Hsub in Ht.
      apply Hfound in Ht. tauto.
    + discriminate.
Qed.

(** [_generate_smart_hashtags] always answers between one and three
    hashtags, none of which contains a '#'.  They are the first words of
    the list chosen by [api_name] that occur in the content, compared in
    lower case; only when no word of the list occurs are they the tags
    chosen by the length of the content. *)
Theorem generate_smart_hashtags_shape (content api_name : string) :
  let found :=
    filter (fun word => contains (lower word) (lower content))
      (hashtag_words api_name) in
  let hashtags := generate_smart_hashtags content api_name in
  (1 <= List.length hashtags <= 3)%nat
  /\ Forall (fun tag => contains "#" tag = false) hashtags
  /\ (found <> [] ->
      hashtags = firstn 3 found
      /\ Forall (fun tag => In tag (hashtag_words api_name)
                            /\ contains tag (lower content) = true)
           hashtags)
  /\ (found = [] -> hashtags = length_hashtags content).
Proof. exact (generate_smart_hashtags_shape_facts content api_name). Qed.

(** ** Reading fetched documents *)

Lemma split_dots_plain (key rest : string) :
  ~ In "."%char (list_ascii_of_string key) ->
  split_dots key = [key]
  /\ split_dots (key ++ String "." rest) = key :: split_dots rest.
Proof.
  induction key as [|c key IH]; intros Hfree; simpl.
  - split; reflexivity.
  - simpl in Hfree.
    destruct (Ascii.eqb_spec c ".") as [->|Hc]; [exfalso; auto|].
    destruct IH as [E1 E2]; [intros Hin; apply Hfree; now right|].
    rewrite E1, E2. split; reflexivity.
Qed.

(** [get_nested_value] follows a dotted path through dicts only.  On data
    that is not a dict (a list, a string, a number, null) every path
    answers [None], so a path such as "facts.0" never indexes into a list.
    On a dict, a path without a dot is a plain lookup, a missing key or a
    null value giving [None]; and a path [key.rest] looks [key] up and
    follows [rest] from the value found. *)
Theorem get_nested_value_paths (render : json -> string) :
  (forall data key_path,
     (forall d, data <> JDict d) ->
     get_nested_value render data key_path = None)
  /\ (forall d key,
        ~ In "."%char (list_ascii_of_string key) ->
        get_nested_value render (JDict d) key
        = match dict_get key d with
          | None | Some JNull => None
          | Some v => Some (py_str render v)
          end)
  /\ (forall d key rest,
        ~ In "."%char (list_ascii_of_string key) ->
        get_nested_value render (JDict d) (key ++ String "." rest)
        = match dict_get key d with
          | None => None
          | Some v => get_nested_value render v rest
          end).
Proof.
  split; [|split].
  - intros data key_path Hnd. unfold get_nested_value.
    assert (Hs : exists k ks, split_dots key_path = k :: ks).
    { destruct key_path as [|c s]; simpl; [eauto|].
      destruct (Ascii.eqb c "."); [eauto|].
      destruct (split_dots s); eauto. }
    destruct Hs as (k & ks & ->). simpl.
    destruct data; try reflexivity. exfalso. eapply Hnd. reflexivity.
  - intros d key Hfree. unfold get_nested_value.
    destruct (split_dots_plain key "" Hfree) as [-> _]. simpl.
    destruct (dict_get key d) as [v|]; reflexivity.
  - intros d key rest Hfree. unfold get_nested_value.
    destruct (split_dots_plain key rest Hfree) as [_ ->]. simpl.
    destruct (dict_get key d) as [v|]; reflexivity.
Qed.

Lemma prefix_app (a b : string) : String.prefix a (a ++ b) = true.
Proof.
  induction a as [|c a IH]; simpl; [now destruct b|].
  destruct (Ascii.ascii_dec c c); [exact IH | congruence].
Qed.

Lemma prefix_refl (a : string) : String.prefix a a = true.
Proof.
  induction a as [|c a IH]; simpl; [reflexivity|].
  destruct (Ascii.ascii_dec c c); [exact IH | congruence].
Qed.

Lemma prefix_trans_app (a b c : string) :
  String.prefix a b = true -> String.prefix a (b ++ c) = true.
Proof.
  revert b. induction a as [|x a IH]; intros b H; simpl;
    [now destruct (b ++ c)%string|].
  destruct b as [|y b]; simpl in *; [discriminate|].
  destruct (Ascii.ascii_dec x y); [now apply IH | discriminate].
Qed.

(** The step of [fetch_content] that turns a fetched document into a post.
    It yields a post exactly when the content key resolves to a non-empty
    text.  The content of the post is then non-empty and begins with that
    text (author and punchline are only appended), it is that text itself
    when the API has neither an author key nor a punchline key, and the
    post carries the name and the address of the API. *)
Theorem extract_post_content (render : json -> string) (api : api_config)
    (data : json) :
  (extract_post render api data = None
   <-> nonempty (get_nested_value render data (content_key api)) = false)
  /\ forall post, extract_post render api data = Some post ->
       exists text,
         get_nested_value render data (content_key api) = Some text
         /\ text <> ""%string
         /\ String.prefix text (content post) = true
         /\ content post <> ""%string
         /\ (author_key api = None -> punchline_key api = None ->
             content post = text)
         /\ api_name post = name api /\ api_url post = url api.
Proof.
  unfold extract_post.
  destruct (get_nested_value render data (content_key api))
    as [[|c0 cs]|] eqn:Ec; cbv beta iota zeta; cbn [nonempty].
  - split; [tauto | discriminate].
  - split; [split; discriminate|].
    intros post Hp. injection Hp as <-. exists (String c0 cs).
    cbn [content api_name api_url].
    split; [reflexivity|]. split; [discriminate|].
    destruct (author_key api) as [ka|];
      [destruct (get_nested_value render data ka) as [[|a0 as_]|]|];
      (destruct (punchline_key api) as [kp|];
       [destruct (get_nested_value render data kp) as [[|p0 ps]|]|]);
      (split;
       [repeat match goal with
               | |- context [String ?c (?a ++ ?b)] =>
                   change (String c (a ++ b)) with (String c a ++ b)%string
               end;
        first [apply prefix_refl | apply prefix_app
              | apply prefix_trans_app, prefix_app]|]);
      (split; [discriminate|]);
      (split; [intros; first [reflexivity | congruence]
              | split; reflexivity]).
  - split; [tauto | discriminate].
Qed.

(** ** Dicts, the submitted form and the configuration *)

Section DictFacts.
Context {V : Type}.

Lemma dict_get_set_same (key : string) (v : V) (d : list (string * V)) :
  dict_get key (dict_set key v d) = Some v.
Proof.
  induction d as [|[k v0] rest IH]; simpl.
  - now rewrite String.eqb_refl.
  - destruct (String.eqb k key) eqn:E; simpl; rewrite E; auto.
Qed.

Lemma dict_get_set_other (key other : string) (v : V)
    (d : list (string * V)) :
  other <> key -> dict_get other (dict_set key v d) = dict_get other d.
Proof.
  intros Hne. induction d as [|[k v0] rest IH]; simpl.
  - destruct (String.eqb_spec key other); [congruence | reflexivity].
  - destruct (String.eqb_spec k key) as [->|Hk]; simpl.
    + destruct (String.eqb_spec key other); [congruence | reflexivity].
    + now rewrite IH.
Qed.

Lemma dict_set_keys (key : string) (v : V) (d : list (string * V)) :
  map fst (dict_set key v d)
  = if existsb (String.eqb key) (map fst d) then map fst d
    else map fst d ++ [key].
Proof.
  induction d as [|[k v0] rest IH]; simpl; [reflexivity|].
  rewrite (String.eqb_sym key k).
  destruct (String.eqb k key); simpl; [reflexivity|].
  rewrite IH. now destruct (existsb _ _).
Qed.

Lemma dict_set_NoDup (key : string) (v : V) (d : list (string * V)) :
  NoDup (map fst d) -> NoDup (map fst (dict_set key v d)).
Proof.
  intros H. rewrite dict_set_keys.
  destruct (existsb (String.eqb key) (map fst d)) eqn:E; [exact H|].
  apply NoDup_app; [exact H | repeat constructor; auto | ].
  intros k Hk [Ek|[]]. subst k.
  assert (existsb (String.eqb key) (map fst d) = true)
    by (apply existsb_exists; exists key; split;
        [exact Hk | apply String.eqb_refl]).
  congruence.
Qed.

Lemma set_each_NoDup (key : string) (values : list V) :
  forall d, NoDup (map fst d) -> NoDup (map fst (set_each key values d)).
Proof.
  unfold set_each. induction values as [|v vs IH]; intros d H; simpl;
    [exact H|]. apply IH. now apply dict_set_NoDup.
Qed.

Lemma set_each_other (key other : string) (values : list V) :
  other <> key ->
  forall d, dict_get other (set_each key values d) = dict_get other d.
Proof.
  intros Hne. unfold set_each.
  induction values as [|v vs IH]; intros d; simpl; [reflexivity|].
  rewrite IH. now apply dict_get_set_other.
Qed.

Lemma set_each_last (key : string) (v : V) (vs : list V) (default : V) :
  forall d,
  dict_get key (set_each key (v :: vs) d) = Some (last (v :: vs) default).
Proof.
  unfold set_each. revert v.
  induction vs as [|v' vs IH]; intros v d.
  - simpl. apply dict_get_set_same.
  - change (fold_left (fun d v => dict_set key v d) (v :: v' :: vs) d)
      with (fold_left (fun d v => dict_set key v d) (v' :: vs)
              (dict_set key v d)).
    rewrite IH. reflexivity.
Qed.

Lemma set_each_none (key : string) (d : list (string * V)) :
  set_each key [] d = d.
Proof. reflexivity. Qed.

End DictFacts.

Lemma post_content_form_facts (cfg : Config) (content : string)
    (title : option string) (hashtags media_urls : option (list string)) :
  let form := form_data cfg content title hashtags media_urls in
  NoDup (map fst form)
  /\ dict_get "content" form = Some content
  /\ dict_get "hashtags[]" form
     = Some (match hashtags with
             | Some (h :: hs) => last (h :: hs) ""%string
             | _ => ""%string
             end)
  /\ dict_get "countries_iso[]" form
     = match COUNTRIES_ISO cfg with
       | [] => None
       | c :: cs => Some (last (c :: cs) ""%string)
       end
  /\ dict_get "media_files_urls[]" form
     = match media_urls with
       | Some (u :: us) => Some (last (u :: us) ""%string)
       | _ => None
       end.
Proof.
  intros form. subst form. unfold form_data.
  set (base := [ ("title"%string, _); _; _; _; _; _; _ ]).
  assert (Hbase : NoDup (map fst base)).
  { subst base. cbn [map fst].
    repeat (constructor;
            [intros Hin; repeat destruct Hin as [Hin|Hin];
             try discriminate Hin; exact Hin|]).
    constructor. }
  set (d1 := set_each "countries_iso[]" (COUNTRIES_ISO cfg) base).
  assert (H1 : NoDup (map fst d1)) by (now apply set_each_NoDup).
  assert (C1 : dict_get "content" d1 = Some content)
    by (subst d1; rewrite set_each_other by discriminate; reflexivity).
  assert (K1 : dict_get "countries_iso[]" d1
               = match COUNTRIES_ISO cfg with
                 | [] => None
                 | c :: cs => Some (last (c :: cs) ""%string)
                 end).
  { subst d1. destruct (COUNTRIES_ISO cfg) as [|c cs];
      [reflexivity | apply set_each_last]. }
  assert (M1 : dict_get "media_files_urls[]" d1 = None)
    by (subst d1; rewrite set_each_other by discriminate; reflexivity).
  set (d2 := match hashtags with
             | Some (h :: hs) => set_each "hashtags[]" (h :: hs) d1
             | _ => dict_set "hashtags[]" ""%string d1
             end).
  assert (H2 : NoDup (map fst d2)
               /\ dict_get "content" d2 = Some content
               /\ dict_get "hashtags[]" d2
                  = Some (match hashtags with
                          | Some (h :: hs) => last (h :: hs) ""%string
                          | _ => ""%string
                          end)
               /\ dict_get "countries_iso[]" d2
                  = dict_get "countries_iso[]" d1
               /\ dict_get "media_files_urls[]" d2 = None).
  { subst d2. destruct hashtags as [[|h hs]|].
    - rewrite (dict_get_set_other _ "content") by discriminate.
      rewrite (dict_get_set_other _ "countries_iso[]") by discriminate.
      rewrite (dict_get_set_other _ "media_files_urls[]") by discriminate.
      rewrite dict_get_set_same.
      repeat split; auto using dict_set_NoDup.
    - rewrite (set_each_other _ "content") by discriminate.
      rewrite (set_each_other _ "countries_iso[]") by discriminate.
      rewrite (set_each_other _ "media_files_urls[]") by discriminate.
      rewrite (set_each_last _ _ _ ""%string).
      repeat split; auto using set_each_NoDup.
    - rewrite (dict_get_set_other _ "content") by discriminate.
      rewrite (dict_get_set_other _ "countries_iso[]") by discriminate.
      rewrite (dict_get_set_other _ "media_files_urls[]") by discriminate.
      rewrite dict_get_set_same.
      repeat split; auto using dict_set_NoDup. }
  destruct H2 as (N2 & C2 & T2 & K2 & M2). rewrite K1 in K2.
  destruct media_urls as [[|u us]|]; try (repeat split; assumption).
  rewrite (set_each_other _ "content") by discriminate.
  rewrite (set_each_other _ "hashtags[]") by discriminate.
  rewrite (set_each_other _ "countries_iso[]") by discriminate.
  rewrite (set_each_last _ _ _ ""%string).
  repeat split; auto using set_each_NoDup.
Qed.

(** The form [post_content] submits has one field per key, so a list
    argument reaches the endpoint through its last element only: the field
    "hashtags[]" holds the last hashtag (the empty text when there is
    none), "countries_iso[]" the last country, and "media_files_urls[]"
    the last media address, being absent when there is none.  The content
    is submitted as given. *)
Theorem post_content_form (cfg : Config) (content : string)
    (title : option string) (hashtags media_urls : option (list string)) :
  let form := form_data cfg content title hashtags media_urls in
  NoDup (map fst form)
  /\ dict_get "content" form = Some content
  /\ dict_get "hashtags[]" form
     = Some (match hashtags with
             | Some (h :: hs) => last (h :: hs) ""%string
             | _ => ""%string
             end)
  /\ dict_get "countries_iso[]" form
     = match COUNTRIES_ISO cfg with
       | [] => None
       | c :: cs => Some (last (c :: cs) ""%string)
       end
  /\ dict_get "media_files_urls[]" form
     = match media_urls with
       | Some (u :: us) => Some (last (u :: us) ""%string)
       | _ => None
       end.
Proof. exact (post_content_form_facts cfg content title hashtags media_urls). Qed.

(** What [make_post] submits of the hashtags it generates: they are never
    empty, and the form carries the last of them only. *)
Theorem make_post_submits_last_hashtag (cfg : Config)
    (content fetched_from : string) (title : option string) :
  let hashtags := generate_smart_hashtags content fetched_from in
  hashtags <> []
  /\ dict_get "hashtags[]"
       (form_data cfg content title (Some hashtags) None)
     = Some (last hashtags ""%string).
Proof.
  intros hashtags.
  destruct (generate_smart_hashtags_shape_facts content fetched_from)
    as (Hlen & _).
  fold hashtags in Hlen.
  destruct (post_content_form_facts cfg content title (Some hashtags) None)
    as (_ & _ & Ht & _).
  destruct hashtags as [|h hs]; [simpl in Hlen; lia|].
  split; [discriminate | exact Ht].
Qed.

Lemma truthy_str_spec (s : string) : truthy_str s = true <-> s <> ""%string.
Proof.
  unfold truthy_str. destruct (String.eqb_spec s ""); split; intros;
    try congruence; try discriminate; reflexivity.
Qed.

Lemma truthy_int_spec (n : Z) : truthy_int n = true <-> n <> 0.
Proof.
  unfold truthy_int. destruct (Z.eqb_spec n 0); split; intros;
    try congruence; try discriminate; reflexivity.
Qed.

(** [validate_config] accepts a configuration exactly when none of the
    eight required settings is empty or zero; otherwise it raises, and its
    message lists the settings found missing after the fixed heading.  An
    empty database password, which is the default, is always reported, as
    the last name of the list. *)
Theorem validate_config_missing (c : Config) :
  (validate_config c = inr true
   <-> API_ENDPOINT c <> ""%string /\ API_KEY c <> ""%string
       /\ USER_ID c <> 0 /\ CATEGORY_ID c <> 0
       /\ DB_HOST c <> ""%string /\ DB_NAME c <> ""%string
       /\ DB_USER c <> ""%string /\ DB_PASSWORD c <> ""%string)
  /\ (forall result, validate_config c = inr result -> result = true)
  /\ (forall message, validate_config c = inl message ->
        missing_fields c <> []
        /\ message = ("Missing required configuration: "
                      ++ String.concat ", " (missing_fields c))%string)
  /\ (DB_PASSWORD c = ""%string ->
      exists others,
        missing_fields c = others ++ ["DB_PASSWORD"%string]
        /\ validate_config c
           = inl ("Missing required configuration: "
                  ++ String.concat ", " (others ++ ["DB_PASSWORD"]))%string).
Proof.
  rewrite <- !truthy_str_spec, <- !truthy_int_spec.
  unfold validate_config, missing_fields, required_fields.
  split; [|split; [|split]].
  - destruct (truthy_str (API_ENDPOINT c)), (truthy_str (API_KEY c)),
      (truthy_int (USER_ID c)), (truthy_int (CATEGORY_ID c)),
      (truthy_str (DB_HOST c)), (truthy_str (DB_NAME c)),
      (truthy_str (DB_USER c)), (truthy_str (DB_PASSWORD c));
      cbn [filter map fst snd negb];
      (split; [intros H; try discriminate H; now repeat split
              | intros H; try reflexivity;
                decompose [and] H; discriminate]).
  - intros result H.
    destruct (map fst _); [now injection H as <- | discriminate].
  - intros message H.
    destruct (map fst _) as [|f fs] eqn:E; [discriminate|].
    injection H as <-. split; [discriminate | reflexivity].
  - intros Hpw.
    assert (Ht : truthy_str (DB_PASSWORD c) = false)
      by (unfold truthy_str; rewrite Hpw; reflexivity).
    rewrite Ht.
    exists (map fst
              (filter (fun field => negb (snd field))
                 [ ("API_ENDPOINT"%string, truthy_str (API_ENDPOINT c));
                   ("API_KEY"%string, truthy_str (API_KEY c));
                   ("USER_ID"%string, truthy_int (USER_ID c));
                   ("CATEGORY_ID"%string, truthy_int (CATEGORY_ID c));
                   ("DB_HOST"%string, truthy_str (DB_HOST c));
                   ("DB_NAME"%string, truthy_str (DB_NAME c));
                   ("DB_USER"%string, truthy_str (DB_USER c)) ])).
    destruct (truthy_str (API_ENDPOINT c)), (truthy_str (API_KEY c)),
      (truthy_int (USER_ID c)), (truthy_int (CATEGORY_ID c)),
      (truthy_str (DB_HOST c)), (truthy_str (DB_NAME c)),
      (truthy_str (DB_USER c));
      cbn [filter map fst snd negb app]; split; reflexivity.
Qed.

(** ** The status report *)

Lemma two_types_within_total (rows : list post_row) :
  (List.length
     (filter (fun r => String.eqb (row_post_type r) "RANDOM") rows)
   + List.length
       (filter (fun r => String.eqb (row_post_type r) "SCHEDULED") rows)
   <= List.length rows)%nat.
Proof.
  induction rows as [|r rows IH]; simpl; [lia|].
  destruct (String.eqb_spec (row_post_type r) "RANDOM") as [E|_];
    destruct (String.eqb_spec (row_post_type r) "SCHEDULED") as [E'|_];
    simpl; try lia.
  rewrite E in E'. discriminate E'.
Qed.

(** The figures of one status report agree with each other: the RANDOM
    and SCHEDULED counts are non-negative and together do not exceed the
    count of today's posts; a last post time is reported exactly when that
    count is not 0; and the number of scheduled jobs is the size of the
    registry.  On a database whose statements fail the counts are all 0
    and no last post time is reported. *)
Theorem get_status_consistent (is_running : bool) (now : datetime)
    (w : world) :
  let s := get_status is_running now w in
  0 <= random_posts_today s /\ 0 <= scheduled_posts_today s
  /\ random_posts_today s + scheduled_posts_today s <= posts_today s
  /\ (last_post_time s = None <-> posts_today s = 0)
  /\ scheduled_jobs s = List.length (jobs w)
  /\ (db_raises (database_manager w) = true ->
      posts_today s = 0 /\ random_posts_today s = 0
      /\ scheduled_posts_today s = 0 /\ last_post_time s = None).
Proof.
  intros s. subst s.
  cbn [get_status random_posts_today scheduled_posts_today posts_today
         last_post_time scheduled_jobs].
  pose proof (count_by_type_within_total_facts (database_manager w) now
                "RANDOM") as Hr.
  pose proof (count_by_type_within_total_facts (database_manager w) now
                "SCHEDULED") as Hs.
  split; [lia|]. split; [lia|]. split; [|split; [|split]].
  - unfold get_today_posts_count.
    destruct (db_raises (database_manager w)); [lia|].
    cbn [String.eqb Ascii.eqb Bool.eqb andb].
    pose proof (two_types_within_total
                  (filter (posted_today now)
                     (db_posts (database_manager w)))).
    lia.
  - pose proof (get_last_post_time_latest_facts (database_manager w) now)
      as Hl.
    unfold get_last_post_time, get_today_posts_count in *.
    destruct (db_raises (database_manager w)); [tauto|].
    destruct (latest _) as [t|] eqn:El.
    + split; [discriminate|]. intros Hz. exfalso.
      destruct Hl as (_ & (r & Hin & Htoday & _) & _).
      assert (In r (filter (posted_today now)
                      (db_posts (database_manager w))))
        by (apply filter_In; auto).
      destruct (filter (posted_today now) (db_posts (database_manager w)));
        [contradiction | simpl in Hz; lia].
    + split; [|reflexivity]. intros _.
      destruct Hl as [Hl|Hl]; [discriminate | exact Hl].
  - unfold get_scheduled_jobs. apply length_map.
  - intros Hdb. unfold get_today_posts_count, get_last_post_time.
    rewrite Hdb. auto.
Qed.
